(** * email-scribe-connect: the fetch-normalize-prioritize pipeline

    A shallow embedding of the two edge functions of the repository,

    - [gmail-analyze] (Prompt Builder, Response Parser, Result Merger/Ranker),
    - [gmail-fetch]   (Batch Fetcher, Message Hydrator, Body Decoder),

    and the properties of their specification, proved or refuted on it.

    Data typed by a TypeScript interface in the source ([AnalyzeRequest],
    [GmailRequest]) is a record here; data the source holds as [any] (what
    [JSON.parse] and [response.json()] return) is a [JSON] value that the
    handlers inspect with the dynamic operations of JavaScript, so a
    wrongly shaped reply raises a [TypeError] here as it does there. *)

From Stdlib Require Import ZArith QArith Qabs Ascii String List Permutation.
From stdpp Require Import base gmap strings list sorting.

Local Open Scope Z_scope.

(** ** JavaScript values *)

(** What [JSON.parse] can return.  A number is held as the rational its
    literal denotes; the only thing the handlers ask of a number is whether
    it is truthy.  An object keeps its properties in insertion order, each
    key once. *)
#[warnings="-register-all"]
Inductive JSON : Type :=
| JNull
| JBool (b : bool)
| JNumber (q : Q)
| JString (s : string)
| JArray (items : list JSON)
| JObject (props : list (string * JSON)).

(** A value that may be [undefined]. *)
Abbreviation JSValue := (option JSON).
Abbreviation undefined := (@None JSON).

(** What a [throw] carries.  [Error] is [new Error(message)] of the source;
    the others are raised by the engine or the platform, whose message text
    is theirs. *)
Inductive Thrown : Type :=
| Error (message : string)
| TypeError
| SyntaxError
| InvalidCharacterError
| NetworkError
| RangeError.

(** A computation that returns or throws. *)
Inductive Completion (A : Type) : Type :=
| Normal (a : A)
| Throw (e : Thrown).
Arguments Normal {A} a.
Arguments Throw {A} e.

#[global] Instance Completion_ret : MRet Completion := λ A, Normal.
#[global] Instance Completion_bind : MBind Completion :=
  λ A B f m, match m with Normal a => f a | Throw e => Throw e end.

(** A double rounds to zero exactly when its magnitude is at most half the
    least subnormal, [2^-1075]. *)
Definition number_is_zero (q : Q) : bool :=
  Qle_bool (Qabs q * inject_Z (2 ^ 1075)) 1.

(** [ToBoolean]. *)
Definition truthy (v : JSValue) : bool :=
  match v with
  | None | Some JNull => false
  | Some (JBool b) => b
  | Some (JNumber q) => negb (number_is_zero q)
  | Some (JString s) => negb (String.eqb s "")
  | Some (JArray _) | Some (JObject _) => true
  end.

(** [a || b] *)
Definition or (a b : JSValue) : JSValue := if truthy a then a else b.

(** [a || d] where [d] is a literal, hence defined. *)
Definition or_else (a : JSValue) (d : JSON) : JSON :=
  match a with
  | Some x => if truthy a then x else d
  | None => d
  end.

(** Own property of an object. *)
Fixpoint assoc (k : string) (props : list (string * JSON)) : JSValue :=
  match props with
  | [] => undefined
  | (k', v) :: rest => if String.eqb k k' then Some v else assoc k rest
  end.

(** Whether the conversion of a parsed value to a string (in a template
    literal) or to a property key returns.  An object converts through the
    inherited [toString] unless it has an own member of that name: no parsed
    value is callable and the inherited [valueOf] returns the object itself,
    so that the conversion ends in a [TypeError].  An array converts through
    [join], which converts its elements. *)
Fixpoint convertible (v : JSON) : bool :=
  match v with
  | JObject props =>
      match assoc "toString" props with
      | Some _ => false
      | None => true
      end
  | JArray items => forallb convertible items
  | _ => true
  end.

(** [`${v}`], and the key of [o[v]]: only whether it returns matters here. *)
Definition ToString (v : JSValue) : Completion unit :=
  match v with
  | Some x => if convertible x then Normal tt else Throw TypeError
  | None => Normal tt
  end.

(** [v.k] for a key that is no builtin member of strings, arrays or
    [Object.prototype] (the handlers read no other). *)
Definition get (v : JSValue) (k : string) : Completion JSValue :=
  match v with
  | None | Some JNull => Throw TypeError
  | Some (JObject props) => Normal (assoc k props)
  | Some _ => Normal undefined
  end.

(** [v?.k] *)
Definition opt_get (v : JSValue) (k : string) : JSValue :=
  match v with
  | Some (JObject props) => assoc k props
  | _ => undefined
  end.

(** [v?.[0]] *)
Definition opt_first (v : JSValue) : JSValue :=
  match v with
  | Some (JArray items) => head items
  | Some (JString (String c _)) => Some (JString (String c EmptyString))
  | Some (JObject props) => assoc "0" props
  | _ => undefined
  end.

(** [v === s] for a string [s]. *)
Definition strict_eq_string (v : JSValue) (s : string) : bool :=
  match v with
  | Some (JString s') => String.eqb s' s
  | _ => false
  end.

(** [Array.prototype.find] with a callback that may throw. *)
Fixpoint Array_find {A : Type} (callback : A → Completion bool) (xs : list A)
  : Completion (option A) :=
  match xs with
  | [] => Normal None
  | x :: rest =>
      b ← callback x;
      if b : bool then Normal (Some x) else Array_find callback rest
  end.

(** [v.find(callback)]: anything but an array has no [find] to call. *)
Definition find (v : JSValue) (callback : JSON → Completion bool) : Completion JSValue :=
  match v with
  | Some (JArray items) => Array_find callback items
  | _ => Throw TypeError
  end.

(** [Array.prototype.map] with a callback that may throw. *)
Fixpoint Array_map {A B : Type} (callback : A → Completion B) (xs : list A)
  : Completion (list B) :=
  match xs with
  | [] => Normal []
  | x :: rest =>
      y ← callback x;
      ys ← Array_map callback rest;
      Normal (y :: ys)
  end.

(** [xs.slice(0, n)] *)
Definition slice0 {A : Type} (n : Z) (xs : list A) : list A :=
  if n <? 0 then take (length xs - Z.to_nat (- n)) xs else take (Z.to_nat n) xs.

(** ** Strings *)

Definition chars : string → list ascii := list_ascii_of_string.
Definition text : list ascii → string := string_of_list_ascii.

(** [s.length > n] *)
Definition longer_than (n : nat) (s : string) : bool := Nat.ltb n (String.length s).

(** [s.replace(/-/g, '+').replace(/_/g, '/')] *)
Definition base64url_to_base64 (s : string) : string :=
  text (map (λ c, if Ascii.eqb c "-" then "+"%char
                  else if Ascii.eqb c "_" then "/"%char else c) (chars s)).

(** The match of [/\[[\s\S]*\]/]: the leftmost start is the first opening
    bracket that has a closing bracket after it, and the star is greedy. *)
Fixpoint from_first_open (cs : list ascii) : option (list ascii) :=
  match cs with
  | [] => None
  | c :: rest => if Ascii.eqb c "[" then Some rest else from_first_open rest
  end.

Fixpoint upto_last_close (cs : list ascii) : option (list ascii) :=
  match cs with
  | [] => None
  | c :: rest =>
      match upto_last_close rest with
      | Some span => Some (c :: span)
      | None => if Ascii.eqb c "]" then Some [c] else None
      end
  end.

Definition bracket_match (s : string) : option string :=
  match from_first_open (chars s) with
  | Some rest =>
      match upto_last_close rest with
      | Some span => Some (text ("["%char :: span))
      | None => None
      end
  | None => None
  end.

(** ** Platform builtins

    [JSON.parse] and [atob] belong to the platform, not to the repository.
    The handlers are written against [Runtime]; every general statement
    holds for any runtime.  [reference_runtime] below follows the two
    standards on byte strings and serves to run the handlers on concrete
    inputs.  [None] is a throw ([SyntaxError], [InvalidCharacterError]). *)
Class Runtime : Type := {
  JSON_parse : string → option JSON;
  atob : string → option string
}.

(** *** [atob]: forgiving-base64 decode (WHATWG Infra) *)

Definition is_ascii_whitespace (c : ascii) : bool :=
  let n := N_of_ascii c in
  N.eqb n 9 || N.eqb n 10 || N.eqb n 12 || N.eqb n 13 || N.eqb n 32.

Definition base64_index (c : ascii) : option N :=
  let n := N_of_ascii c in
  if N.leb 65 n && N.leb n 90 then Some (n - 65)%N
  else if N.leb 97 n && N.leb n 122 then Some (n - 71)%N
  else if N.leb 48 n && N.leb n 57 then Some (n + 4)%N
  else if N.eqb n 43 then Some 62%N
  else if N.eqb n 47 then Some 63%N
  else None.

Definition strip_padding (cs : list ascii) : list ascii :=
  match rev cs with
  | "="%char :: "="%char :: r => rev r
  | "="%char :: r => rev r
  | _ => cs
  end.

Fixpoint base64_bytes (ds : list N) : list ascii :=
  match ds with
  | a :: b :: c :: d :: rest =>
      ascii_of_N (a * 4 + b / 16) :: ascii_of_N (b mod 16 * 16 + c / 4)
        :: ascii_of_N (c mod 4 * 64 + d) :: base64_bytes rest
  | [a; b; c] => [ascii_of_N (a * 4 + b / 16); ascii_of_N (b mod 16 * 16 + c / 4)]
  | [a; b] => [ascii_of_N (a * 4 + b / 16)]
  | _ => []
  end%N.

Definition forgiving_base64_decode (s : string) : option string :=
  let data := filter (λ c, is_ascii_whitespace c = false) (chars s) in
  let data := if Nat.eqb (length data mod 4) 0 then strip_padding data else data in
  if Nat.eqb (length data mod 4) 1 then None
  else ds ← mapM base64_index data; Some (text (base64_bytes ds)).

(** *** [JSON.parse] (ECMA-404) on Latin-1 text *)

Definition dquote : ascii := "034"%char.
Definition backslash : ascii := "092"%char.

Fixpoint skip_ws (cs : list ascii) : list ascii :=
  match cs with
  | c :: rest =>
      let n := N_of_ascii c in
      if N.eqb n 32 || N.eqb n 9 || N.eqb n 10 || N.eqb n 13 then skip_ws rest else cs
  | [] => []
  end.

Definition hex_digit (c : ascii) : option N :=
  let n := N_of_ascii c in
  if N.leb 48 n && N.leb n 57 then Some (n - 48)%N
  else if N.leb 65 n && N.leb n 70 then Some (n - 55)%N
  else if N.leb 97 n && N.leb n 102 then Some (n - 87)%N
  else None.

Definition simple_escape (c : ascii) : option ascii :=
  if Ascii.eqb c dquote then Some dquote
  else if Ascii.eqb c backslash then Some backslash
  else if Ascii.eqb c "/" then Some "/"%char
  else if Ascii.eqb c "b" then Some "008"%char
  else if Ascii.eqb c "f" then Some "012"%char
  else if Ascii.eqb c "n" then Some "010"%char
  else if Ascii.eqb c "r" then Some "013"%char
  else if Ascii.eqb c "t" then Some "009"%char
  else None.

(** The characters of a string literal after its opening quote, and what
    follows its closing quote.  An escape above U+00FF has no byte to stand
    for it and is refused. *)
Fixpoint parse_string (cs : list ascii) : option (list ascii * list ascii) :=
  match cs with
  | [] => None
  | c :: rest =>
      if Ascii.eqb c dquote then Some ([], rest)
      else if Ascii.eqb c backslash then
        match rest with
        | [] => None
        | e :: rest1 =>
            match simple_escape e with
            | Some x => '(s, r) ← parse_string rest1; Some (x :: s, r)
            | None =>
                match Ascii.eqb e "u", rest1 with
                | true, h1 :: h2 :: h3 :: h4 :: rest2 =>
                    a ← hex_digit h1; b ← hex_digit h2;
                    c ← hex_digit h3; d ← hex_digit h4;
                    if N.eqb a 0 && N.eqb b 0
                    then '(s, r) ← parse_string rest2;
                         Some (ascii_of_N (c * 16 + d) :: s, r)
                    else None
                | _, _ => None
                end
            end
        end
      else if N.ltb (N_of_ascii c) 32 then None
      else '(s, r) ← parse_string rest; Some (c :: s, r)
  end.

Definition digit (c : ascii) : option Z :=
  let n := N_of_ascii c in
  if N.leb 48 n && N.leb n 57 then Some (Z.of_N n - 48) else None.

(** The leading decimal digits: their value, their count, the rest. *)
Fixpoint digits (acc : Z) (count : nat) (cs : list ascii) : Z * nat * list ascii :=
  match cs with
  | c :: rest =>
      match digit c with
      | Some d => digits (10 * acc + d) (S count) rest
      | None => (acc, count, cs)
      end
  | [] => (acc, count, [])
  end.

Definition pow10 (e : Z) : Q :=
  if e <? 0 then 1 # Z.to_pos (10 ^ (- e)) else inject_Z (10 ^ e).

Definition parse_number (cs : list ascii) : option (Q * list ascii) :=
  let '(negative, cs) :=
    match cs with
    | "-"%char :: rest => (true, rest)
    | _ => (false, cs)
    end in
  '(int, cs) ←
    match cs with
    | "0"%char :: rest => Some (0, rest)
    | _ => let '(v, n, rest) := digits 0 0 cs in
           if Nat.eqb n 0 then None else Some (v, rest)
    end;
  '(mantissa, scale, cs) ←
    match cs with
    | "."%char :: rest =>
        let '(v, n, rest') := digits int 0 rest in
        if Nat.eqb n 0 then None else Some (v, Z.of_nat n, rest')
    | _ => Some (int, 0, cs)
    end;
  '(exponent, cs) ←
    match cs with
    | c :: rest =>
        if Ascii.eqb c "e" || Ascii.eqb c "E" then
          let '(minus, rest) :=
            match rest with
            | "-"%char :: r => (true, r)
            | "+"%char :: r => (false, r)
            | _ => (false, rest)
            end in
          let '(v, n, rest') := digits 0 0 rest in
          if Nat.eqb n 0 then None else Some (if minus then - v else v, rest')
        else Some (0, cs)
    | [] => Some (0, cs)
    end;
  let q := (inject_Z mantissa * pow10 (exponent - scale))%Q in
  Some (if negative then (- q)%Q else q, cs).

(** [JSON.parse] keeps one property per key: a repeated key overwrites the
    value in place. *)
Fixpoint set_prop (k : string) (v : JSON) (props : list (string * JSON))
  : list (string * JSON) :=
  match props with
  | [] => [(k, v)]
  | (k', v') :: rest =>
      if String.eqb k k' then (k, v) :: rest else (k', v') :: set_prop k v rest
  end.

Fixpoint parse_value (fuel : nat) (cs : list ascii) : option (JSON * list ascii) :=
  match fuel with
  | O => None
  | S fuel =>
      match skip_ws cs with
      | "n"%char :: "u"%char :: "l"%char :: "l"%char :: rest => Some (JNull, rest)
      | "t"%char :: "r"%char :: "u"%char :: "e"%char :: rest => Some (JBool true, rest)
      | "f"%char :: "a"%char :: "l"%char :: "s"%char :: "e"%char :: rest =>
          Some (JBool false, rest)
      | "["%char :: rest =>
          match skip_ws rest with
          | "]"%char :: rest' => Some (JArray [], rest')
          | _ => '(items, rest') ← parse_elements fuel rest; Some (JArray items, rest')
          end
      | "{"%char :: rest =>
          match skip_ws rest with
          | "}"%char :: rest' => Some (JObject [], rest')
          | _ => '(props, rest') ← parse_members fuel rest []; Some (JObject props, rest')
          end
      | c :: rest =>
          if Ascii.eqb c dquote
          then '(s, rest') ← parse_string rest; Some (JString (text s), rest')
          else '(q, rest') ← parse_number (c :: rest); Some (JNumber q, rest')
      | [] => None
      end
  end
with parse_elements (fuel : nat) (cs : list ascii) : option (list JSON * list ascii) :=
  match fuel with
  | O => None
  | S fuel =>
      '(v, rest) ← parse_value fuel cs;
      match skip_ws rest with
      | ","%char :: rest' =>
          '(vs, rest'') ← parse_elements fuel rest'; Some (v :: vs, rest'')
      | "]"%char :: rest' => Some ([v], rest')
      | _ => None
      end
  end
with parse_members (fuel : nat) (cs : list ascii) (acc : list (string * JSON))
  : option (list (string * JSON) * list ascii) :=
  match fuel with
  | O => None
  | S fuel =>
      match skip_ws cs with
      | c :: rest =>
          if Ascii.eqb c dquote then
            '(k, rest1) ← parse_string rest;
            match skip_ws rest1 with
            | ":"%char :: rest2 =>
                '(v, rest3) ← parse_value fuel rest2;
                let acc := set_prop (text k) v acc in
                match skip_ws rest3 with
                | ","%char :: rest4 => parse_members fuel rest4 acc
                | "}"%char :: rest4 => Some (acc, rest4)
                | _ => None
                end
            | _ => None
            end
          else None
      | [] => None
      end
  end.

(** The reference parser reads Latin-1 text: it refuses an escape above
    [U+00FF], and it keeps the exact rational of a number where an engine
    rounds to a double.  It runs on the concrete inputs only. *)
Definition parse_json (s : string) : option JSON :=
  let cs := chars s in
  '(v, rest) ← parse_value (2 * length cs + 2) cs;
  match skip_ws rest with
  | [] => Some v
  | _ => None
  end.

#[global] Instance reference_runtime : Runtime :=
  {| JSON_parse := parse_json; atob := forgiving_base64_decode |}.

(** [Array.prototype.sort(compare)] with a comparator that may throw.  The
    language requires the sort to be stable; for a consistent comparator
    that fixes the result ([descending_stable_unique] below), which this
    insertion sort computes: an element is placed before the first one it
    does not compare strictly after.  For an inconsistent comparator the
    language leaves the order to the engine, and this is one of the orders
    it allows.  A throw of the comparator ends the sort; which pairs an
    engine compares is its own choice, but of two elements or more each one
    enters a comparison, here as in any engine. *)
Fixpoint sort_insert {A : Type} (compare : A → A → Completion Z) (x : A) (sorted : list A)
  : Completion (list A) :=
  match sorted with
  | [] => Normal [x]
  | y :: rest =>
      c ← compare x y;
      if c <=? 0 then Normal (x :: y :: rest)
      else rest' ← sort_insert compare x rest; Normal (y :: rest')
  end.

Fixpoint Array_sort {A : Type} (compare : A → A → Completion Z) (xs : list A)
  : Completion (list A) :=
  match xs with
  | [] => Normal []
  | x :: rest => sorted ← Array_sort compare rest; sort_insert compare x sorted
  end.

(** The stable sort by a comparator that returns: what [Array_sort] computes
    when no comparison throws ([Array_sort_returns] below). *)
Fixpoint stable_insert {A : Type} (compare : A → A → Z) (x : A) (sorted : list A) : list A :=
  match sorted with
  | [] => [x]
  | y :: rest =>
      if compare x y <=? 0 then x :: y :: rest
      else y :: stable_insert compare x rest
  end.

Fixpoint stable_sort {A : Type} (compare : A → A → Z) (xs : list A) : list A :=
  match xs with
  | [] => []
  | x :: rest => stable_insert compare x (stable_sort compare rest)
  end.

(** [try { body } catch { handler }] *)
Definition try_catch {A : Type} (body : Completion A) (handler : Thrown → Completion A)
  : Completion A :=
  match body with
  | Normal a => Normal a
  | Throw e => handler e
  end.

(** [!s] for a string that may be missing. *)
Definition absent (s : option string) : bool :=
  match s with
  | Some s => String.eqb s ""
  | None => true
  end.

(** [a || b] on strings. *)
Definition string_or (a : option string) (b : string) : string :=
  match a with
  | Some s => if String.eqb s "" then b else s
  | None => b
  end.

(** ** Records *)

(** An entry of [AnalyzeRequest.emails].  The source guards [body] with an
    optional chain, so it may be missing. *)
Module Email.
Record t : Type := mk {
    id : string;
    subject : string;
    from : string;
    date : string;
    snippet : string;
    body : option string
}.
End Email.

(** An entry of [emailsForAnalysis]. *)
Module AnalysisEmail.
Record t : Type := mk {
    id : string;
    subject : string;
    from : string;
    snippet : string;
    body : string
}.
End AnalysisEmail.

(** [{ ...email, priority, reasoning, gmailUrl }].  [priority] and
    [reasoning] come from the parsed reply, unchecked. *)
Module PrioritizedEmail.
Record t : Type := mk {
    id : string;
    subject : string;
    from : string;
    date : string;
    snippet : string;
    body : option string;
    priority : JSON;
    reasoning : JSON;
    gmailUrl : string
}.
End PrioritizedEmail.

(** A record of [gmail-fetch].  All but [body] are read off the mailbox
    service's reply, unchecked. *)
Module NormalizedEmail.
Record t : Type := mk {
    id : JSValue;
    subject : JSON;
    from : JSON;
    date : JSON;
    snippet : JSON;
    body : string
}.
End NormalizedEmail.

(** What [fetch] resolves to: [ok] is a status in the 200s, [json] is
    [None] when the body is no JSON text, [readable] tells whether the body
    can be read at all. *)
Module Upstream.
Record t : Type := response { status : Z; json : option JSON; readable : bool }.
(** A response whose body can be read. *)
Definition mk (status : Z) (json : option JSON) : t := response status json true.
Definition ok (r : t) : bool := (200 <=? status r) && (status r <=? 299).
(** [await r.text()] *)
Definition text (r : t) : Completion unit :=
  if readable r then Normal tt else Throw NetworkError.
End Upstream.

(** What a handler answers. *)
Inductive ResponseBody : Type :=
| Empty
| ErrorBody (error : Thrown)
| PrioritizedEmails (prioritizedEmails : list PrioritizedEmail.t)
| Messages (messages : list NormalizedEmail.t).

Module Response.
Record t : Type := mk { status : Z; body : ResponseBody }.
End Response.

(** [new Response(body, { status })] for a body that is not [null]: the
    status has to lie in 200..599 and must not be one of those that allow
    no body (of which 101 and 103 are out of that range already). *)
Definition new_Response (status : Z) (body : ResponseBody) : Completion Response.t :=
  if (status <? 200) || (599 <? status) then Throw RangeError
  else if (status =? 204) || (status =? 205) || (status =? 304) then Throw TypeError
  else Normal (Response.mk status body).

(** A request: [json] is its body as the handler destructures it, [None]
    when the body is no JSON text or is [null], which cannot be
    destructured; [refusal] is what is thrown then, the [SyntaxError] of
    [req.json()] or the [TypeError] of the destructuring. *)
Module Request.
Record t (Body : Type) : Type :=
  request { method : string; json : option Body; refusal : Thrown }.
Arguments request {Body} method json refusal.
Arguments method {Body}.
Arguments json {Body}.
Arguments refusal {Body}.
Definition mk {Body : Type} (method : string) (json : option Body) : t Body :=
  request method json SyntaxError.
(** [const { ... } = await req.json()] *)
Definition read {Body : Type} (req : t Body) : Completion Body :=
  match json req with
  | Some body => Normal body
  | None => Throw (refusal req)
  end.
End Request.

(** ** Effects

    The calls a handler makes to the outside, in order.  A request to the
    classification service is determined by the key and by
    [emailsForAnalysis] (the rest of the prompt is constant text); one to
    the mailbox service by the token and by [maxResults] or the message's
    [id]. *)
Inductive Call : Type :=
| GeminiGenerate (key : string) (emailsForAnalysis : list AnalysisEmail.t)
| GmailList (accessToken : string) (maxResults : Z)
| GmailGet (accessToken : string) (id : JSValue).

Inductive Exec (A : Type) : Type :=
| Run (calls : list Call) (result : Completion A).
Arguments Run {A} calls result.

Definition calls {A : Type} (m : Exec A) : list Call := let 'Run c _ := m in c.
Definition result {A : Type} (m : Exec A) : Completion A := let 'Run _ r := m in r.

#[global] Instance Exec_ret : MRet Exec := λ A a, Run [] (Normal a).
#[global] Instance Exec_bind : MBind Exec :=
  λ A B f m,
    match m with
    | Run c (Normal a) => let 'Run c' r := f a in Run (c ++ c') r
    | Run c (Throw e) => Run c (Throw e)
    end.

(** A step that makes no call. *)
Definition pure {A : Type} (c : Completion A) : Exec A := Run [] c.

(** [await fetch(...)]: one call; a rejected fetch throws. *)
Definition fetch (call : Call) (outcome : option Upstream.t) : Exec Upstream.t :=
  Run [call] (match outcome with Some r => Normal r | None => Throw NetworkError end).

(** [await x.json()] *)
Definition await_json {A : Type} (parsed : option A) : Completion A :=
  match parsed with
  | Some v => Normal v
  | None => Throw SyntaxError
  end.

(** [await Promise.all(promises)]: every promise has been started; the
    result keeps the order of the list, and one rejection rejects the whole
    (the first of the list stands for the first in time). *)
Fixpoint Promise_all {A : Type} (promises : list (Exec A)) : Exec (list A) :=
  match promises with
  | [] => Run [] (Normal [])
  | Run c r :: rest =>
      let 'Run cs rs := Promise_all rest in
      Run (c ++ cs) (x ← r; xs ← rs; Normal (x :: xs))
  end.

(** [try { body } catch (error) { 500, { error: error.message } }], the
    frame of both handlers. *)
Definition catch_all (body : Exec Response.t) : Exec Response.t :=
  match body with
  | Run c (Normal r) => Run c (Normal r)
  | Run c (Throw e) => Run c (Normal (Response.mk 500 (ErrorBody e)))
  end.

(** * gmail-analyze *)

Module GmailAnalyze.

(** The request body as destructured at the head of the handler: either
    field may be missing. *)
Record AnalyzeRequest : Type := {
  accessToken : option string;
  emails : option (list Email.t)
}.

(** The deployment: the environment variable and the classification
    service, which answers a key and a prompt or is out of reach. *)
Record World : Type := {
  GEMINI_API_KEY : option string;
  generateContent : string → list AnalysisEmail.t → option Upstream.t
}.

(** [const priorityOrder = { high: 3, medium: 2, low: 1 }] *)
Definition priorityOrder : gmap string Z :=
  {[ "high" := 3; "medium" := 2; "low" := 1 ]}.

(** [priorityOrder[priority]] as an operand of the subtraction: [None] is an
    operand that makes the difference [NaN] (a missing key, or a member
    inherited from [Object.prototype]).  The key is the string conversion of
    [priority]; that of a one-element array is that of its element, and no
    number, boolean, object or longer array converts to one of the keys. *)
Fixpoint priorityOrder_at (priority : JSON) : option Z :=
  match priority with
  | JString s => priorityOrder !! s
  | JArray [JNull] => None
  | JArray [item] => priorityOrder_at item
  | _ => None
  end.

(** [priorityOrder[priority]]: the conversion of [priority] to a property
    key comes first, and may throw. *)
Definition priorityOrder_member (priority : JSON) : Completion (option Z) :=
  _ ← ToString (Some priority);
  Normal (priorityOrder_at priority).

(** [(a, b) => priorityOrder[b.priority] - priorityOrder[a.priority]];
    the sort reads [NaN] as [+0]. *)
Definition compare (a b : PrioritizedEmail.t) : Completion Z :=
  pb ← priorityOrder_member (PrioritizedEmail.priority b);
  pa ← priorityOrder_member (PrioritizedEmail.priority a);
  Normal match pb, pa with
         | Some pb, Some pa => pb - pa
         | _, _ => 0
         end.

(** Lines 61-67. *)
Definition emailsForAnalysis (emails : list Email.t) : list AnalysisEmail.t :=
  map (λ email,
         {| AnalysisEmail.id := Email.id email;
            AnalysisEmail.subject := Email.subject email;
            AnalysisEmail.from := Email.from email;
            AnalysisEmail.snippet := Email.snippet email;
            AnalysisEmail.body :=
              string_or (String.substring 0 200 <$> Email.body email)
                        (Email.snippet email) |})
      (slice0 100 emails).

(** [geminiData.candidates?.[0]?.content?.parts?.[0]?.text] *)
Definition responseText (geminiData : JSON) : Completion JSValue :=
  candidates ← get (Some geminiData) "candidates";
  Normal
    (opt_get (opt_first (opt_get (opt_get (opt_first candidates) "content") "parts"))
             "text").

(** Lines 142-150, the callback of [emails.map]. *)
Definition prioritizedEmail (analysisResults : JSON) (email : Email.t)
  : Completion PrioritizedEmail.t :=
  analysis ← find (Some analysisResults)
                  (λ result, id ← get (Some result) "id";
                             Normal (strict_eq_string id (Email.id email)));
  Normal
    {| PrioritizedEmail.id := Email.id email;
       PrioritizedEmail.subject := Email.subject email;
       PrioritizedEmail.from := Email.from email;
       PrioritizedEmail.date := Email.date email;
       PrioritizedEmail.snippet := Email.snippet email;
       PrioritizedEmail.body := Email.body email;
       PrioritizedEmail.priority :=
         or_else (opt_get analysis "priority") (JString "medium");
       PrioritizedEmail.reasoning :=
         or_else (opt_get analysis "reasoning") (JString "No analysis available");
       PrioritizedEmail.gmailUrl :=
         "https://mail.google.com/mail/u/0/#inbox/" +:+ Email.id email |}.

Definition prioritizedEmails (analysisResults : JSON) (emails : list Email.t)
  : Completion (list PrioritizedEmail.t) :=
  Array_map (prioritizedEmail analysisResults) emails.

Section Handler.
Context `{Runtime} (world : World).

(** Lines 129-139.  [responseText] is truthy here; on anything but a string
    the call of [match] is itself a [TypeError], inside the same [try]. *)
Definition analysisResults (responseText : JSValue) : Completion JSON :=
  try_catch
    match responseText with
    | Some (JString s) =>
        let jsonMatch := bracket_match s in
        let jsonString := default s jsonMatch in
        match JSON_parse jsonString with
        | Some parsed => Normal parsed
        | None => Throw SyntaxError
        end
    | _ => Throw TypeError
    end
    (λ parseError, Throw (Error "Invalid response format from Gemini")).

(** Lines 37-164, the body of the [try]. *)
Definition tryBlock (req : Request.t AnalyzeRequest) : Exec Response.t :=
  body ← pure (Request.read req);
  let geminiApiKey := GEMINI_API_KEY world in
  if absent geminiApiKey then
    mret (Response.mk 500 (ErrorBody (Error "Gemini API key not configured")))
  else if absent (accessToken body)
          || match emails body with
             | Some emails => Nat.eqb (length emails) 0
             | None => true
             end
  then
    mret (Response.mk 400 (ErrorBody (Error "Access token and emails are required")))
  else
    let key := default "" geminiApiKey in
    let emails := default [] (emails body) in
    geminiResponse ← fetch (GeminiGenerate key (emailsForAnalysis emails))
                           (generateContent world key (emailsForAnalysis emails));
    if negb (Upstream.ok geminiResponse) then
      _ ← pure (Upstream.text geminiResponse);
      pure (new_Response (Upstream.status geminiResponse)
                         (ErrorBody (Error "Failed to analyze emails with Gemini")))
    else
      geminiData ← pure (await_json (Upstream.json geminiResponse));
      responseText ← pure (responseText geminiData);
      if negb (truthy responseText) then
        pure (Throw (Error "No response from Gemini"))
      else
        analysisResults ← pure (analysisResults responseText);
        prioritizedEmails ← pure (prioritizedEmails analysisResults emails);
        sorted ← pure (Array_sort compare prioritizedEmails);
        mret (Response.mk 200 (PrioritizedEmails sorted)).

(** Lines 31-176. *)
Definition handler (req : Request.t AnalyzeRequest) : Exec Response.t :=
  if String.eqb (Request.method req) "OPTIONS" then mret (Response.mk 200 Empty)
  else catch_all (tryBlock req).

End Handler.

End GmailAnalyze.

(** * gmail-fetch *)

Module GmailFetch.

(** The request body as destructured at the head of the handler. *)
Record GmailRequest : Type := {
  accessToken : option string;
  maxResults : option Z
}.

(** The mailbox service: the listing and the lookup of one message, each
    answering or out of reach. *)
Record World : Type := {
  listMessages : string → Z → option Upstream.t;
  getMessage : string → JSValue → option Upstream.t
}.

(** [headers.find((h: any) => h.name === name)?.value] *)
Definition header (headers : JSValue) (name : string) : Completion JSValue :=
  h ← find headers (λ h, n ← get (Some h) "name";
                         Normal (strict_eq_string n name));
  Normal (opt_get h "value").

(** [body.substring(0, 500) + (body.length > 500 ? '...' : '')] *)
Definition truncate (body : string) : string :=
  String.substring 0 500 body +:+ (if longer_than 500 body then "..." else "").

Section Handler.
Context `{Runtime} (world : World).

(** [atob(data.replace(/-/g, '+').replace(/_/g, '/'))] for a truthy [data]:
    anything but a string has no [replace] to call. *)
Definition decode (data : JSON) : Completion string :=
  match data with
  | JString s =>
      match atob (base64url_to_base64 s) with
      | Some decoded => Normal decoded
      | None => Throw InvalidCharacterError
      end
  | _ => Throw TypeError
  end.

(** Lines 276-281, the loop over [detail.payload.parts] with its [break]. *)
Fixpoint scan (parts : list JSON) : Completion string :=
  match parts with
  | [] => Normal ""
  | part :: rest =>
      mimeType ← get (Some part) "mimeType";
      let data := opt_get (opt_get (Some part) "body") "data" in
      if strict_eq_string mimeType "text/plain" && truthy data
      then match data with
           | Some blob => decode blob
           | None => Normal ""
           end
      else scan rest
  end.

(** Lines 272-282.  [for ... of] runs over an array, or over the characters
    of a string (none of which has a [mimeType]); nothing else iterates. *)
Definition body (payload : JSValue) : Completion string :=
  let data := opt_get (opt_get payload "body") "data" in
  if truthy data then
    match data with
    | Some blob => decode blob
    | None => Normal ""
    end
  else
    let parts := opt_get payload "parts" in
    if truthy parts then
      match parts with
      | Some (JArray items) => scan items
      | Some (JString _) => Normal ""
      | _ => Throw TypeError
      end
    else Normal "".

(** Lines 263-291: the record of one message, from the reply to its lookup. *)
Definition normalize (id : JSValue) (detail : JSON) : Completion NormalizedEmail.t :=
  payload ← get (Some detail) "payload";
  let headers := or (opt_get payload "headers") (Some (JArray [])) in
  subject ← header headers "Subject";
  from ← header headers "From";
  date ← header headers "Date";
  body ← body payload;
  Normal
    {| NormalizedEmail.id := id;
       NormalizedEmail.subject := or_else subject (JString "No Subject");
       NormalizedEmail.from := or_else from (JString "Unknown Sender");
       NormalizedEmail.date := or_else date (JString "");
       NormalizedEmail.snippet := or_else (opt_get (Some detail) "snippet") (JString "");
       NormalizedEmail.body := truncate body |}.

(** Lines 247-292, the callback of [map]: [None] is its [null].  The
    address of the lookup holds [message.id] in a template literal. *)
Definition hydrate (accessToken : string) (message : JSON)
  : Exec (option NormalizedEmail.t) :=
  id ← pure (get (Some message) "id");
  _ ← pure (ToString id);
  detailResponse ← fetch (GmailGet accessToken id) (getMessage world accessToken id);
  if negb (Upstream.ok detailResponse) then mret None
  else
    detail ← pure (await_json (Upstream.json detailResponse));
    email ← pure (normalize id detail);
    mret (Some email).

(** Lines 198-303, the body of the [try]. *)
Definition tryBlock (req : Request.t GmailRequest) : Exec Response.t :=
  request ← pure (Request.read req);
  let maxResults := default 10 (maxResults request) in
  if absent (accessToken request) then
    mret (Response.mk 400 (ErrorBody (Error "Access token is required")))
  else
    let accessToken := default "" (accessToken request) in
    gmailResponse ← fetch (GmailList accessToken maxResults)
                          (listMessages world accessToken maxResults);
    if negb (Upstream.ok gmailResponse) then
      _ ← pure (Upstream.text gmailResponse);
      pure (new_Response (Upstream.status gmailResponse)
                         (ErrorBody (Error "Failed to fetch emails from Gmail")))
    else
      emailList ← pure (await_json (Upstream.json gmailResponse));
      messages ← pure (get (Some emailList) "messages");
      if negb (truthy messages) then mret (Response.mk 200 (Messages []))
      else
        match messages with
        | Some (JArray items) =>
            emailDetails ← Promise_all (map (hydrate accessToken)
                                            (slice0 maxResults items));
            let validEmails := omap (λ email, email) emailDetails in
            mret (Response.mk 200 (Messages validEmails))
        | _ => pure (Throw TypeError)
        end.

(** Lines 191-315. *)
Definition handler (req : Request.t GmailRequest) : Exec Response.t :=
  if String.eqb (Request.method req) "OPTIONS" then mret (Response.mk 200 Empty)
  else catch_all (tryBlock req).

End Handler.

End GmailFetch.

(** * The specification's vocabulary *)

(** The first result of [f] along a list. *)
Section FirstSome.
Context {A B : Type} (f : A → option B).
Fixpoint first_some (xs : list A) : option B :=
  match xs with
  | [] => None
  | x :: rest =>
      match f x with
      | Some y => Some y
      | None => first_some rest
      end
  end.
End FirstSome.

(** A message content payload as section 4.1 of the specification describes
    it: a tree of parts, each with a MIME type and an optional blob (and the
    headers the mailbox service attaches to it). *)
#[warnings="-register-all"]
Inductive MessagePart : Type :=
| Part (mimeType : string) (headers : list (string * string))
       (blob : option string) (parts : list MessagePart).

Definition header_json (h : string * string) : JSON :=
  JObject [("name", JString h.1); ("value", JString h.2)].

(** The payload as the mailbox service sends it. *)
Fixpoint part_json (p : MessagePart) : JSON :=
  match p with
  | Part mimeType headers blob parts =>
      JObject
        (("mimeType", JString mimeType)
           :: ("headers", JArray (header_json <$> headers))
           :: ("body", JObject match blob with
                               | Some data => [("data", JString data)]
                               | None => []
                               end)
           :: match parts with
              | [] => []
              | _ => [("parts", JArray (map part_json parts))]
              end)
  end.

(** A part carries a blob when it has a non-empty one. *)
Definition carried (blob : option string) : option string :=
  match blob with
  | Some data => if String.eqb data "" then None else Some data
  | None => None
  end.

(** The blob of a part that is plain text and carries one. *)
Definition plain_text_blob (p : MessagePart) : option string :=
  match p with
  | Part mimeType _ blob _ =>
      if String.eqb mimeType "text/plain" then carried blob else None
  end.

(** The blob of the first plain-text part carrying one, depth first. *)
Fixpoint first_plain_text (p : MessagePart) : option string :=
  match plain_text_blob p with
  | Some data => Some data
  | None => match p with Part _ _ _ parts => first_some first_plain_text parts end
  end.

(** The blob the specification selects: the top-level one, else that of the
    first plain-text part in a depth-first scan of the parts. *)
Definition spec_selected (p : MessagePart) : option string :=
  match p with
  | Part _ _ blob parts =>
      match carried blob with
      | Some data => Some data
      | None => first_some first_plain_text parts
      end
  end.

(** The blob the handler selects: the top-level one, else that of the first
    plain-text part among the direct parts. *)
Definition selected (p : MessagePart) : option string :=
  match p with
  | Part _ _ blob parts =>
      match carried blob with
      | Some data => Some data
      | None => first_some plain_text_blob parts
      end
  end.

(** A classification result matches an email when its [id] is that string. *)
Definition matches (id : string) (result : JSON) : bool :=
  strict_eq_string (opt_get (Some result) "id") id.

(** The fields of a prioritized record that come from the email. *)
Definition email_of (p : PrioritizedEmail.t) : Email.t :=
  {| Email.id := PrioritizedEmail.id p;
     Email.subject := PrioritizedEmail.subject p;
     Email.from := PrioritizedEmail.from p;
     Email.date := PrioritizedEmail.date p;
     Email.snippet := PrioritizedEmail.snippet p;
     Email.body := PrioritizedEmail.body p |}.

(** The ordinal of a priority tier, 0 for anything else. *)
Definition tier (p : PrioritizedEmail.t) : Z :=
  match PrioritizedEmail.priority p with
  | JString s =>
      if String.eqb s "high" then 3
      else if String.eqb s "medium" then 2
      else if String.eqb s "low" then 1
      else 0
  | _ => 0
  end.

(** The value of the comparator when it returns. *)
Definition difference (a b : PrioritizedEmail.t) : Z :=
  match GmailAnalyze.priorityOrder_at (PrioritizedEmail.priority b),
        GmailAnalyze.priorityOrder_at (PrioritizedEmail.priority a) with
  | Some pb, Some pa => pb - pa
  | _, _ => 0
  end.

(** The priority of a record can be converted to a property key. *)
Definition comparable (p : PrioritizedEmail.t) : bool :=
  convertible (PrioritizedEmail.priority p).

(** The [priority] member of a result, if it has one, can be converted to a
    property key. *)
Definition sortable (result : JSON) : bool :=
  match opt_get (Some result) "priority" with
  | Some priority => convertible priority
  | None => true
  end.

(** A priority is recognized when it is one of the three tiers. *)
Definition recognized (priority : JSON) : Prop :=
  priority = JString "high" ∨ priority = JString "medium" ∨ priority = JString "low".

(** The request reached the classification service, which answered the
    batch [emails] with the text [reply]. *)
Definition replied (world : GmailAnalyze.World)
    (req : Request.t GmailAnalyze.AnalyzeRequest)
    (emails : list Email.t) (reply : string) : Prop :=
  ∃ token key response geminiData,
    Request.method req ≠ "OPTIONS" ∧
    Request.json req
      = Some {| GmailAnalyze.accessToken := Some token;
                GmailAnalyze.emails := Some emails |} ∧
    token ≠ "" ∧ emails ≠ [] ∧
    GmailAnalyze.GEMINI_API_KEY world = Some key ∧ key ≠ "" ∧
    GmailAnalyze.generateContent world key (GmailAnalyze.emailsForAnalysis emails)
      = Some response ∧
    Upstream.ok response = true ∧
    Upstream.json response = Some geminiData ∧
    GmailAnalyze.responseText geminiData = Normal (Some (JString reply)).

(** ... and the Response Parser read [results] out of that text. *)
Definition classified `{Runtime} (world : GmailAnalyze.World)
    (req : Request.t GmailAnalyze.AnalyzeRequest)
    (emails : list Email.t) (results : JSON) : Prop :=
  ∃ reply,
    replied world req emails reply ∧ reply ≠ "" ∧
    JSON_parse (default reply (bracket_match reply)) = Some results.

(** The listing answered the request; [attempted] are the messages the
    handler looks up, in listing order. *)
Definition listed (world : GmailFetch.World)
    (req : Request.t GmailFetch.GmailRequest)
    (token : string) (attempted : list JSON) : Prop :=
  ∃ cap listing emailList items,
    Request.method req ≠ "OPTIONS" ∧
    Request.json req
      = Some {| GmailFetch.accessToken := Some token;
                GmailFetch.maxResults := cap |} ∧
    token ≠ "" ∧
    GmailFetch.listMessages world token (default 10 cap) = Some listing ∧
    Upstream.ok listing = true ∧
    Upstream.json listing = Some emailList ∧
    get (Some emailList) "messages" = Normal (Some (JArray items)) ∧
    attempted = slice0 (default 10 cap) items.

(** The lookup of [message] was made and returned a non-success response. *)
Definition fetch_failed (world : GmailFetch.World) (token : string) (message : JSON)
  : bool :=
  match get (Some message) "id" with
  | Normal id =>
      match ToString id, GmailFetch.getMessage world token id with
      | Normal _, Some response => negb (Upstream.ok response)
      | _, _ => false
      end
  | Throw _ => false
  end.

(** ** Concrete inputs *)

Definition quoted (s : string) : string :=
  String dquote (s +:+ String dquote EmptyString).

Definition newline : string := String "010"%char EmptyString.

(** The reply of section 8 of the specification and its bracketed array. *)
Definition example_span : string :=
  "[{" +:+ quoted "id" +:+ ":" +:+ quoted "a" +:+ ","
       +:+ quoted "priority" +:+ ":" +:+ quoted "high" +:+ ","
       +:+ quoted "reasoning" +:+ ":" +:+ quoted "urgent" +:+ "}]".

Definition example_reply : string :=
  "Here is the result:" +:+ newline +:+ example_span +:+ newline +:+ "Thanks".

(** A reply with two results, for [c] and for [a]. *)
Definition two_results_reply : string :=
  "[{" +:+ quoted "id" +:+ ":" +:+ quoted "c" +:+ ","
       +:+ quoted "priority" +:+ ":" +:+ quoted "low" +:+ ","
       +:+ quoted "reasoning" +:+ ":" +:+ quoted "newsletter" +:+ "},{"
       +:+ quoted "id" +:+ ":" +:+ quoted "a" +:+ ","
       +:+ quoted "priority" +:+ ":" +:+ quoted "high" +:+ ","
       +:+ quoted "reasoning" +:+ ":" +:+ quoted "deadline today" +:+ "}]".

(** A reply whose one result has a priority outside the three tiers. *)
Definition urgent_reply : string :=
  "[{" +:+ quoted "id" +:+ ":" +:+ quoted "a" +:+ ","
       +:+ quoted "priority" +:+ ":" +:+ quoted "urgent" +:+ "}]".

(** A reply whose one result has for priority an object with an own member
    [toString]. *)
Definition unconvertible_reply : string :=
  "[{" +:+ quoted "id" +:+ ":" +:+ quoted "a" +:+ ","
       +:+ quoted "priority" +:+ ":{" +:+ quoted "toString" +:+ ":1}}]".

(** The body of a successful answer of the classification service. *)
Definition gemini_says (reply : string) : JSON :=
  JObject
    [("candidates",
      JArray
        [JObject
           [("content",
             JObject [("parts", JArray [JObject [("text", JString reply)]])])]])].

Definition analyze_world (key : option string) (reply : string) : GmailAnalyze.World :=
  {| GmailAnalyze.GEMINI_API_KEY := key;
     GmailAnalyze.generateContent :=
       λ _ _, Some (Upstream.mk 200 (Some (gemini_says reply))) |}.

Definition analyze_request (token : option string) (emails : option (list Email.t))
  : Request.t GmailAnalyze.AnalyzeRequest :=
  Request.mk "POST"
    (Some {| GmailAnalyze.accessToken := token; GmailAnalyze.emails := emails |}).

Definition email (id : string) (body : option string) : Email.t :=
  {| Email.id := id;
     Email.subject := "Quarterly report";
     Email.from := "alice@example.org";
     Email.date := "Mon, 2 Jun 2025 09:00:00 +0000";
     Email.snippet := "Please find attached";
     Email.body := body |}.

(** A batch beyond the cap of the prompt: a hundred emails, then the one
    the example reply classifies. *)
Definition long_batch : list Email.t :=
  replicate 100 (email "b" (Some "See you there.")) ++ [email "a" None].

(** A body of 260 characters. *)
Definition long_body : string :=
  text (replicate 260 "x"%char).

Definition message_ref (id : string) : JSON := JObject [("id", JString id)].

(** The reply to the lookup of one message. *)
Definition message_json (snippet : string) (payload : MessagePart) : JSON :=
  JObject [("snippet", JString snippet); ("payload", part_json payload)].

Definition found (snippet : string) (payload : MessagePart) : Upstream.t :=
  Upstream.mk 200 (Some (message_json snippet payload)).

Definition not_found : Upstream.t := Upstream.mk 404 None.

(** A mailbox that lists [listing] and answers the lookup of an id with
    [lookup]. *)
Definition mailbox (listing : list string) (lookup : string → Upstream.t)
  : GmailFetch.World :=
  {| GmailFetch.listMessages :=
       λ _ _, Some (Upstream.mk 200
                      (Some (JObject [("messages", JArray (message_ref <$> listing))])));
     GmailFetch.getMessage :=
       λ _ id, match id with
               | Some (JString s) => Some (lookup s)
               | _ => Some not_found
               end |}.

Definition fetch_request (token : option string) (maxResults : option Z)
  : Request.t GmailFetch.GmailRequest :=
  Request.mk "POST"
    (Some {| GmailFetch.accessToken := token; GmailFetch.maxResults := maxResults |}).

(** [hello world] as the one blob of a plain-text message. *)
Definition plain_payload : MessagePart :=
  Part "text/plain" [("Subject", "Hello"); ("From", "bob@example.org")]
       (Some "aGVsbG8gd29ybGQ=") [].

(** A plain-text part ([hi]) one level below the direct parts. *)
Definition nested_payload : MessagePart :=
  Part "multipart/mixed" [("Subject", "Minutes")] None
       [Part "multipart/alternative" [] None
             [Part "text/plain" [] (Some "aGk=") [];
              Part "text/html" [] (Some "PGI-aGk8L2I-") []]].

(** Three direct parts: HTML, then plain text ([hi]), then plain text
    again ([hello]). *)
Definition alternative_payload : MessagePart :=
  Part "multipart/alternative" [("Subject", "Lunch")] None
       [Part "text/html" [] (Some "PGI-aGk8L2I-") [];
        Part "text/plain" [] (Some "aGk=") [];
        Part "text/plain" [] (Some "aGVsbG8=") []].

(** A blob that is no base64. *)
Definition broken_payload : MessagePart :=
  Part "text/plain" [("Subject", "Broken")] (Some "!") [].

(** [m1] and [m3] are found, anything else is not. *)
Definition two_of_three (id : string) : Upstream.t :=
  if String.eqb id "m1" then found "hello" plain_payload
  else if String.eqb id "m3" then found "minutes" nested_payload
  else not_found.

(** [m2] is found and carries the broken blob, anything else is not found. *)
Definition one_broken (id : string) : Upstream.t :=
  if String.eqb id "m2" then found "broken" broken_payload else not_found.

(** * The callers in the web client

    [EmailList.fetchEmails] and [PrioritizedEmails.analyzeEmails] call the
    two edge functions through [supabase.functions.invoke].  A component is
    its state; a handler of the component is an action on that state which
    may show a toast, invoke a function and notify the parent. *)

(** [x.length] for a value that is neither [null] nor [undefined]. *)
Definition length_of (x : JSON) : JSValue :=
  match x with
  | JArray items => Some (JNumber (inject_Z (Z.of_nat (length items))))
  | JString s => Some (JNumber (inject_Z (Z.of_nat (String.length s))))
  | JObject props => assoc "length" props
  | _ => undefined
  end.

(** [x?.length] *)
Definition opt_length (x : JSValue) : JSValue :=
  match x with
  | None | Some JNull => undefined
  | Some x => length_of x
  end.

Module Client.

(** [supabase.functions.invoke(name, { body })]: the function named and the
    body sent to it. *)
Inductive Invocation : Type :=
| gmail_fetch (body : GmailFetch.GmailRequest)
| gmail_analyze (body : GmailAnalyze.AnalyzeRequest).

(** What the call settles to: [{ data, error }], an error with its message,
    or a rejection. *)
Inductive Outcome : Type :=
| Settled (data : JSValue) (error : option string)
| Rejected (e : Thrown).

(** The description of a toast: a literal, the message the engine gave an
    error it raised, or one of the two templates with the value in it (the
    action converts the value before it shows the toast). *)
Inductive Description : Type :=
| Literal (s : string)
| MessageOf (e : Thrown)
| Fetched (count : JSValue)
| Analyzed (count : JSON).

Record Toast : Type := {
  title : string;
  description : Description;
  destructive : bool
}.

Inductive Effect : Type :=
| Invokes (call : Invocation)
| Toasts (t : Toast)
| EmailsChange (emails : JSON).

(** [error.message || fallback] for a caught error; the messages of the
    engine are not empty. *)
Definition message_or (error : Thrown) (fallback : string) : Description :=
  match error with
  | Error message => Literal (if String.eqb message "" then fallback else message)
  | _ => MessageOf error
  end.

(** An action on a state [S]: the state it leaves, what it did, and how it
    completed. *)
Record UI (S A : Type) : Type := MkUI {
  run : S → S * list Effect * Completion A
}.
Arguments MkUI {S A} run.
Arguments run {S A} u s.

#[global] Instance UI_ret {S : Type} : MRet (UI S) :=
  λ A a, MkUI (λ s, (s, [], Normal a)).
#[global] Instance UI_bind {S : Type} : MBind (UI S) :=
  λ A B f m,
    MkUI (λ s,
      let '(s1, e1, r) := run m s in
      match r with
      | Normal a => let '(s2, e2, r2) := run (f a) s1 in (s2, e1 ++ e2, r2)
      | Throw e => (s1, e1, Throw e)
      end).

(** A state setter. *)
Definition set {S : Type} (f : S → S) : UI S unit :=
  MkUI (λ s, (f s, [], Normal tt)).

Definition emit {S : Type} (e : Effect) : UI S unit :=
  MkUI (λ s, (s, [e], Normal tt)).

Definition toast {S : Type} (t : Toast) : UI S unit := emit (Toasts t).

Definition throw {S A : Type} (e : Thrown) : UI S A :=
  MkUI (λ s, (s, [], Throw e)).

Definition lift {S A : Type} (c : Completion A) : UI S A :=
  MkUI (λ s, (s, [], c)).

(** [const { data, error } = await supabase.functions.invoke(...)] *)
Definition invoking {S : Type} (invoke : Invocation → Outcome) (call : Invocation)
  : UI S (JSValue * option string) :=
  MkUI (λ s, (s, [Invokes call],
              match invoke call with
              | Settled data error => Normal (data, error)
              | Rejected e => Throw e
              end)).

(** [try { body } catch (error) { handler }] *)
Definition catching {S A : Type} (body : UI S A) (handler : Thrown → UI S A) : UI S A :=
  MkUI (λ s,
    let '(s1, e1, r) := run body s in
    match r with
    | Normal a => (s1, e1, Normal a)
    | Throw e => let '(s2, e2, r2) := run (handler e) s1 in (s2, e1 ++ e2, r2)
    end).

(** [try { body } finally { cleanup }] *)
Definition finally {S A : Type} (body : UI S A) (cleanup : UI S unit) : UI S A :=
  MkUI (λ s,
    let '(s1, e1, r) := run body s in
    let '(s2, e2, r2) := run cleanup s1 in
    (s2, e1 ++ e2, match r2 with Normal _ => r | Throw e => Throw e end)).

(** ** [EmailList] *)

Module EmailList.

Record State : Type := {
  emails : JSON;
  loading : bool;
  selectedEmail : option JSON
}.

(** [useState([])], [useState(false)], [useState(null)] *)
Definition initial : State :=
  {| emails := JArray []; loading := false; selectedEmail := None |}.

Definition setEmails (v : JSON) : UI State unit :=
  set (λ s, {| emails := v; loading := loading s; selectedEmail := selectedEmail s |}).

Definition setLoading (b : bool) : UI State unit :=
  set (λ s, {| emails := emails s; loading := b; selectedEmail := selectedEmail s |}).

Section Component.
(** The props ([onEmailsChange] is optional: it is given or not; the
    parent's callback is a state setter and returns) and the function
    service behind [invoke]. *)
Context (invoke : Invocation → Outcome)
        (accessToken : option string) (onEmailsChange : bool).

(** The third file of [part_000], lines 345-385. *)
Definition fetchEmails : UI State unit :=
  if absent accessToken then
    toast {| title := "Error";
             description :=
               Literal "No access token available. Please sign in with Google.";
             destructive := true |}
  else
    setLoading true;;
    finally
      (catching
         ('(data, error) ←
            invoking invoke
              (gmail_fetch {| GmailFetch.accessToken := accessToken;
                              GmailFetch.maxResults := Some 20 |});
          match error with
          | Some message => throw (Error message)
          | None =>
              messages ← lift (get data "messages");
              let fetchedEmails := or_else messages (JArray []) in
              setEmails fetchedEmails;;
              (if onEmailsChange then emit (EmailsChange fetchedEmails) else mret tt);;
              lift (ToString (length_of fetchedEmails));;
              toast {| title := "Success";
                       description := Fetched (length_of fetchedEmails);
                       destructive := false |}
          end)
         (λ error,
            toast {| title := "Error";
                     description := message_or error "Failed to fetch emails";
                     destructive := true |}))
      (setLoading false).

End Component.

End EmailList.

(** ** [PrioritizedEmails] *)

Module PrioritizedEmails.

Record State : Type := {
  prioritizedEmails : JSON;
  loading : bool;
  analyzed : bool
}.

(** [useState([])], [useState(false)], [useState(false)] *)
Definition initial : State :=
  {| prioritizedEmails := JArray []; loading := false; analyzed := false |}.

Definition setPrioritizedEmails (v : JSON) : UI State unit :=
  set (λ s, {| prioritizedEmails := v; loading := loading s; analyzed := analyzed s |}).

Definition setLoading (b : bool) : UI State unit :=
  set (λ s, {| prioritizedEmails := prioritizedEmails s; loading := b;
               analyzed := analyzed s |}).

Definition setAnalyzed (b : bool) : UI State unit :=
  set (λ s, {| prioritizedEmails := prioritizedEmails s; loading := loading s;
               analyzed := b |}).

Section Component.
Context (invoke : Invocation → Outcome)
        (accessToken : option string) (emails : list Email.t).

(** [GoogleAuth.tsx], lines 210-249. *)
Definition analyzeEmails : UI State unit :=
  if absent accessToken || Nat.eqb (length emails) 0 then
    toast {| title := "Error";
             description :=
               Literal "No emails available to analyze. Please fetch emails first.";
             destructive := true |}
  else
    setLoading true;;
    finally
      (catching
         ('(data, error) ←
            invoking invoke
              (gmail_analyze {| GmailAnalyze.accessToken := accessToken;
                                GmailAnalyze.emails := Some (slice0 100 emails) |});
          match error with
          | Some message => throw (Error message)
          | None =>
              prioritized ← lift (get data "prioritizedEmails");
              setPrioritizedEmails (or_else prioritized (JArray []));;
              setAnalyzed true;;
              lift (ToString (Some (or_else (opt_length prioritized) (JNumber 0))));;
              toast {| title := "Analysis Complete";
                       description :=
                         Analyzed (or_else (opt_length prioritized) (JNumber 0));
                       destructive := false |}
          end)
         (λ error,
            toast {| title := "Analysis Failed";
                     description :=
                       message_or error "Failed to analyze emails with Gemini";
                     destructive := true |}))
      (setLoading false).

End Component.

End PrioritizedEmails.

End Client.

(** The invocations among the effects of an action, and its toasts. *)
Definition invocations (effects : list Client.Effect) : list Client.Invocation :=
  omap (λ e, match e with Client.Invokes call => Some call | _ => None end) effects.

Definition toasts (effects : list Client.Effect) : list Client.Toast :=
  omap (λ e, match e with Client.Toasts t => Some t | _ => None end) effects.

(** The request reached the classification service, which answered the
    batch [emails] with [response]. *)
Definition asked (world : GmailAnalyze.World)
    (req : Request.t GmailAnalyze.AnalyzeRequest)
    (key : string) (emails : list Email.t) (response : option Upstream.t) : Prop :=
  ∃ token,
    Request.method req ≠ "OPTIONS" ∧
    Request.json req
      = Some {| GmailAnalyze.accessToken := Some token;
                GmailAnalyze.emails := Some emails |} ∧
    token ≠ "" ∧ emails ≠ [] ∧
    GmailAnalyze.GEMINI_API_KEY world = Some key ∧ key ≠ "" ∧
    GmailAnalyze.generateContent world key (GmailAnalyze.emailsForAnalysis emails)
      = response.

(** The value of the first header of that exact name. *)
Definition header_value (name : string) (headers : list (string * string))
  : option string :=
  snd <$> List.find (λ h, String.eqb h.1 name) headers.

(** A header's value as the record shows it: the fallback stands for a
    missing or empty one. *)
Definition shown (fallback : string) (value : option string) : string :=
  match value with
  | Some v => if String.eqb v "" then fallback else v
  | None => fallback
  end.

(** A result is relevant to a batch when it matches one of its emails. *)
Definition relevant (emails : list Email.t) (result : JSON) : bool :=
  existsb (λ email, matches (Email.id email) result) emails.

(** A classification service that answers every prompt with [response]. *)
Definition service (key : option string) (response : option Upstream.t)
  : GmailAnalyze.World :=
  {| GmailAnalyze.GEMINI_API_KEY := key;
     GmailAnalyze.generateContent := λ _ _, response |}.

(** A mailbox whose listing answers [response] and whose lookups are out of
    reach. *)
Definition listing_only (response : option Upstream.t) : GmailFetch.World :=
  {| GmailFetch.listMessages := λ _ _, response;
     GmailFetch.getMessage := λ _ _, None |}.

(** What a handler answers to a refusal of its service: the status of the
    refusal under [body], when the refusal can be read and a response can
    carry that status; the 500 of the frame otherwise. *)
Definition passed_on (refusal : Upstream.t) (body : ResponseBody) : Response.t :=
  match (_ ← Upstream.text refusal; new_Response (Upstream.status refusal) body) with
  | Normal response => response
  | Throw e => Response.mk 500 (ErrorBody e)
  end.

(** The call that looks [message] up, if it has an [id] to read and to put
    into the address. *)
Definition lookup_of (token : string) (message : JSON) : option Call :=
  match get (Some message) "id" with
  | Normal id =>
      match ToString id with
      | Normal _ => Some (GmailGet token id)
      | Throw _ => None
      end
  | Throw _ => None
  end.

(** The body has no token or no email. *)
Definition incomplete (body : GmailAnalyze.AnalyzeRequest) : bool :=
  absent (GmailAnalyze.accessToken body)
  || match GmailAnalyze.emails body with
     | Some emails => Nat.eqb (length emails) 0
     | None => true
     end.

(** The blob of 600 times the letter [x]. *)
Definition long_blob : string := text (mjoin (replicate 200 (chars "eHh4"))).

Definition long_payload : MessagePart :=
  Part "text/plain" [("Subject", "Long")] (Some long_blob) [].

(** A function service that settles every call the same way. *)
Definition answering (outcome : Client.Outcome) : Client.Invocation → Client.Outcome :=
  λ _, outcome.

(** * Properties *)

(** ** The builtins and the string helpers on small inputs *)

Example atob_hi : atob "aGk=" = Some "hi".
Proof. reflexivity. Qed.

Example atob_without_padding : atob "aGk" = Some "hi".
Proof. reflexivity. Qed.

Example atob_refuses_punctuation : atob "!" = None.
Proof. reflexivity. Qed.

Example atob_refuses_one_character : atob "a" = None.
Proof. reflexivity. Qed.

Example base64url_translated : base64url_to_base64 "PGI-aGk8L2I_" = "PGI+aGk8L2I/".
Proof. reflexivity. Qed.

Example JSON_parse_array : JSON_parse " [1, true, null] "
                           = Some (JArray [JNumber 1; JBool true; JNull]).
Proof. reflexivity. Qed.

Example JSON_parse_prose : JSON_parse "Here you are" = None.
Proof. reflexivity. Qed.

Example JSON_parse_trailing_comma : JSON_parse "[1,]" = None.
Proof. reflexivity. Qed.

Example bracket_match_greedy : bracket_match "see [1, [2]] and ] so" = Some "[1, [2]] and ]".
Proof. reflexivity. Qed.

Example bracket_match_close_before_open : bracket_match "] [" = None.
Proof. reflexivity. Qed.

Example tiny_number_is_falsy : truthy (JSON_parse "1e-400") = false.
Proof. by vm_compute. Qed.

Example empty_array_is_truthy : truthy (JSON_parse "[]") = true.
Proof. reflexivity. Qed.

Example slice0_negative : slice0 (-1) [1; 2; 3] = [1; 2].
Proof. reflexivity. Qed.

Example truncate_short : GmailFetch.truncate "hello" = "hello".
Proof. reflexivity. Qed.

Example truncate_long :
  String.length (GmailFetch.truncate (text (replicate 501 "x"%char))) = 503%nat.
Proof. by vm_compute. Qed.

Example priorityOrder_high : GmailAnalyze.priorityOrder_at (JString "high") = Some 3.
Proof. reflexivity. Qed.

Example priorityOrder_of_array : GmailAnalyze.priorityOrder_at (JArray [JString "low"]) = Some 1.
Proof. reflexivity. Qed.

Example priorityOrder_unknown : GmailAnalyze.priorityOrder_at (JString "urgent") = None.
Proof. reflexivity. Qed.

(** ** The sort *)

Section Sorting.
Context {A : Type}.

Lemma stable_insert_permutation (compare : A → A → Z) x xs :
  stable_insert compare x xs ≡ₚ x :: xs.
Proof.
  induction xs as [|y xs IH]; simpl; [done|].
  destruct (compare x y <=? 0); [done|].
  rewrite IH. apply Permutation_swap.
Qed.

Lemma stable_sort_permutation (compare : A → A → Z) xs :
  stable_sort compare xs ≡ₚ xs.
Proof.
  induction xs as [|x xs IH]; simpl; [done|].
  by rewrite stable_insert_permutation, IH.
Qed.

(** Only the comparisons between elements of the list matter. *)
Lemma stable_insert_ext (c1 c2 : A → A → Z) x xs :
  (∀ y, y ∈ xs → c1 x y = c2 x y) →
  stable_insert c1 x xs = stable_insert c2 x xs.
Proof.
  induction xs as [|y xs IH]; simpl; intros Hagree; [done|].
  rewrite (Hagree y) by set_solver.
  destruct (c2 x y <=? 0); [done|].
  f_equal. apply IH. intros z Hz. apply Hagree. set_solver.
Qed.

Lemma stable_sort_ext (c1 c2 : A → A → Z) xs :
  (∀ x y, x ∈ xs → y ∈ xs → c1 x y = c2 x y) →
  stable_sort c1 xs = stable_sort c2 xs.
Proof.
  induction xs as [|x xs IH]; simpl; intros Hagree; [done|].
  rewrite IH by (intros; apply Hagree; set_solver).
  apply stable_insert_ext. intros y Hy. apply Hagree; [set_solver|].
  rewrite stable_sort_permutation in Hy. set_solver.
Qed.

(** With [compare a b = key b - key a] the result descends along [key]. *)
Context (key : A → Z).
Let by_key (a b : A) : Z := key b - key a.

Lemma stable_insert_descending x xs :
  StronglySorted (λ a b, key b ≤ key a) xs →
  StronglySorted (λ a b, key b ≤ key a) (stable_insert by_key x xs).
Proof.
  induction 1 as [|y xs Hsorted IH Hall]; simpl.
  - repeat constructor.
  - unfold by_key at 1. destruct (Z.leb_spec (key y - key x) 0) as [Hle|Hgt].
    + constructor; [by constructor|].
      constructor; [lia|]. eapply Forall_impl; [exact Hall|]. simpl. lia.
    + constructor; [exact IH|].
      rewrite stable_insert_permutation. constructor; [lia|exact Hall].
Qed.

Lemma stable_sort_descending xs :
  StronglySorted (λ a b, key b ≤ key a) (stable_sort by_key xs).
Proof.
  induction xs as [|x xs IH]; simpl; [constructor|].
  by apply stable_insert_descending.
Qed.

(** Stability: the elements of one key keep their order. *)
Lemma stable_insert_stable k x xs :
  filter (λ a, key a = k) (stable_insert by_key x xs) = filter (λ a, key a = k) (x :: xs).
Proof.
  induction xs as [|y xs IH]; simpl; [done|].
  unfold by_key at 1. destruct (Z.leb_spec (key y - key x) 0) as [Hle|Hgt]; [done|].
  rewrite !filter_cons in *.
  destruct (decide (key y = k)), (decide (key x = k)); rewrite IH; try done; lia.
Qed.

Lemma stable_sort_stable k xs :
  filter (λ a, key a = k) (stable_sort by_key xs) = filter (λ a, key a = k) xs.
Proof.
  induction xs as [|x xs IH]; simpl; [done|].
  rewrite stable_insert_stable, !filter_cons. by rewrite IH.
Qed.

Lemma elem_of_filter_head (x : A) xs ys :
  filter (λ a, key a = key x) (x :: xs) = filter (λ a, key a = key x) ys → x ∈ ys.
Proof.
  rewrite filter_cons, decide_True by done. intros Heq.
  assert (x ∈ filter (λ a, key a = key x) ys) as Hin by (rewrite <-Heq; left).
  by apply list_elem_of_filter in Hin as [_ ?].
Qed.

Lemma descending_head_max (y : A) ys x :
  StronglySorted (λ a b, key b ≤ key a) (y :: ys) → x ∈ y :: ys → key x ≤ key y.
Proof.
  intros Hsorted Hin. apply StronglySorted_inv in Hsorted as [_ Hall].
  apply elem_of_cons in Hin as [->|Hin]; [lia|].
  rewrite Forall_forall in Hall. by apply Hall.
Qed.

(** A list is determined by its being descending and by the order of the
    elements of each key: whatever stable sort an engine runs, it returns
    what [stable_sort] returns. *)
Lemma descending_stable_unique (xs ys : list A) :
  StronglySorted (λ a b, key b ≤ key a) xs →
  StronglySorted (λ a b, key b ≤ key a) ys →
  (∀ k, filter (λ a, key a = k) xs = filter (λ a, key a = k) ys) →
  xs = ys.
Proof.
  revert ys. induction xs as [|x xs IH]; intros ys Hxs Hys Hfilters.
  - destruct ys as [|y ys]; [done|].
    specialize (Hfilters (key y)). rewrite filter_cons, decide_True in Hfilters by done.
    done.
  - destruct ys as [|y ys].
    { specialize (Hfilters (key x)). rewrite filter_cons, decide_True in Hfilters by done.
      done. }
    assert (key x = key y) as Hkey.
    { pose proof (elem_of_filter_head x xs (y :: ys) (Hfilters (key x))) as Hx.
      pose proof (elem_of_filter_head y ys (x :: xs) (eq_sym (Hfilters (key y)))) as Hy.
      pose proof (descending_head_max _ _ _ Hys Hx).
      pose proof (descending_head_max _ _ _ Hxs Hy). lia. }
    pose proof (Hfilters (key x)) as Hhead.
    rewrite !filter_cons, decide_True, decide_True in Hhead by done.
    injection Hhead as <- Htail. f_equal.
    apply StronglySorted_inv in Hxs as [Hxs _], Hys as [Hys _].
    apply IH; [done|done|]. intros k. specialize (Hfilters k).
    rewrite !filter_cons in Hfilters.
    destruct (decide (key x = k)) as [<-|]; [done|done].
Qed.

Lemma sort_insert_returns (cmp : A → A → Completion Z) (c : A → A → Z) x xs :
  (∀ y, y ∈ xs → cmp x y = Normal (c x y)) →
  sort_insert cmp x xs = Normal (stable_insert c x xs).
Proof.
  induction xs as [|y xs IH]; intros Hcmp; [done|].
  cbn [sort_insert stable_insert]. rewrite Hcmp by (by left).
  cbn [mbind Completion_bind]. destruct (c x y <=? 0); [done|].
  rewrite IH; [done|]. intros z Hz. apply Hcmp. by right.
Qed.

Lemma Array_sort_returns (cmp : A → A → Completion Z) (c : A → A → Z) xs :
  (∀ x y, x ∈ xs → y ∈ xs → cmp x y = Normal (c x y)) →
  Array_sort cmp xs = Normal (stable_sort c xs).
Proof.
  induction xs as [|x xs IH]; intros Hcmp; [done|].
  cbn [Array_sort stable_sort].
  rewrite IH by (intros y z Hy Hz; apply Hcmp; by right).
  cbn [mbind Completion_bind]. apply sort_insert_returns.
  intros y Hy. rewrite stable_sort_permutation in Hy. apply Hcmp; [by left|by right].
Qed.

Lemma sort_insert_Normal (cmp : A → A → Completion Z) x xs ys :
  sort_insert cmp x xs = Normal ys → ys ≡ₚ x :: xs.
Proof.
  revert ys. induction xs as [|y xs IH]; intros ys; cbn [sort_insert].
  - by intros [= <-].
  - destruct (cmp x y) as [c|]; cbn [mbind Completion_bind]; [|done].
    destruct (c <=? 0); [by intros [= <-]|].
    destruct (sort_insert cmp x xs) as [rest|]; cbn [mbind Completion_bind]; [|done].
    intros [= <-]. rewrite (IH rest eq_refl). apply perm_swap.
Qed.

Lemma Array_sort_Normal (cmp : A → A → Completion Z) xs ys :
  Array_sort cmp xs = Normal ys → ys ≡ₚ xs.
Proof.
  revert ys. induction xs as [|x xs IH]; intros ys; cbn [Array_sort].
  - by intros [= <-].
  - destruct (Array_sort cmp xs) as [sorted|]; cbn [mbind Completion_bind]; [|done].
    intros Hys%sort_insert_Normal. by rewrite Hys, (IH sorted eq_refl).
Qed.

(** A comparator that throws [e] on every pair with a bad element, and on no
    other pair: of two elements or more, one bad element ends the sort. *)
Lemma Array_sort_throws (cmp : A → A → Completion Z) (c : A → A → Z) (bad : A → bool) e xs :
  (∀ x y, bad x || bad y = true → cmp x y = Throw e) →
  (∀ x y, bad x || bad y = false → cmp x y = Normal (c x y)) →
  (2 ≤ length xs)%nat → Exists (λ x, bad x = true) xs →
  Array_sort cmp xs = Throw e.
Proof.
  intros Hthrow Hreturn.
  induction xs as [|x rest IH]; intros Hlength Hbad; [by apply Exists_nil in Hbad|].
  cbn [Array_sort].
  destruct (decide (Exists (λ y, bad y = true) rest)) as [Hrest|Hrest].
  - destruct rest as [|y [|z rest]]; [by apply Exists_nil in Hrest| |].
    + apply Exists_cons in Hrest as [Hy|Hnil]; [|by apply Exists_nil in Hnil].
      cbn [Array_sort sort_insert mbind Completion_bind].
      rewrite Hthrow; [done|]. rewrite Hy. apply orb_true_r.
    + rewrite IH; [done|cbn [length]; lia|done].
  - apply Exists_cons in Hbad as [Hx|Hbad]; [|done].
    apply not_Exists_Forall in Hrest; [|intros y; apply _].
    rewrite (Array_sort_returns cmp c rest).
    + cbn [mbind Completion_bind].
      pose proof (stable_sort_permutation c rest) as Hperm.
      destruct (stable_sort c rest) as [|y sorted].
      * apply Permutation_nil_l in Hperm. subst rest. cbn [length] in Hlength. lia.
      * cbn [sort_insert]. rewrite Hthrow; [done|]. by rewrite Hx.
    + intros y z Hy Hz. apply Hreturn.
      rewrite Forall_forall in Hrest.
      apply orb_false_iff. split.
      * specialize (Hrest y Hy). cbn in Hrest. by destruct (bad y).
      * specialize (Hrest z Hz). cbn in Hrest. by destruct (bad z).
Qed.

End Sorting.

(** ** The bracketed span *)

Section Brackets.

Lemma from_first_open_Some cs rest :
  from_first_open cs = Some rest ↔
  ∃ pre, cs = pre ++ ("["%char :: rest) ∧ "["%char ∉ pre.
Proof.
  revert rest. induction cs as [|c cs IH]; simpl; intros rest.
  - split; [done|]. intros ([|??] & ? & _); done.
  - destruct (Ascii.eqb_spec c "[") as [->|Hc].
    + split.
      * intros [= ->]. exists []. split; [done|]. apply not_elem_of_nil.
      * intros ([|c' pre] & Heq & Hpre); simplify_eq/=; [done|].
        exfalso. apply Hpre. left.
    + rewrite IH. split.
      * intros (pre & -> & Hpre). exists (c :: pre). split; [done|].
        rewrite not_elem_of_cons. done.
      * intros ([|c' pre] & Heq & Hpre); simplify_eq/=.
        exists pre. split; [done|]. rewrite not_elem_of_cons in Hpre. tauto.
Qed.

Lemma from_first_open_None cs :
  from_first_open cs = None ↔ "["%char ∉ cs.
Proof.
  induction cs as [|c cs IH]; simpl.
  - split; [intros _; apply not_elem_of_nil|done].
  - destruct (Ascii.eqb_spec c "[") as [->|Hc].
    + split; [done|]. intros Hn. exfalso. apply Hn. left.
    + rewrite IH, not_elem_of_cons. intuition congruence.
Qed.

Lemma upto_last_close_None cs :
  upto_last_close cs = None ↔ "]"%char ∉ cs.
Proof.
  induction cs as [|c cs IH]; simpl.
  - split; [intros _; apply not_elem_of_nil|done].
  - destruct (upto_last_close cs) as [span|].
    + split; [done|]. rewrite not_elem_of_cons. intros [_ Hn].
      apply IH in Hn. done.
    + destruct (Ascii.eqb_spec c "]") as [->|Hc].
      * split; [done|]. intros Hn. exfalso. apply Hn. left.
      * rewrite not_elem_of_cons. intuition congruence.
Qed.

Lemma upto_last_close_Some cs span :
  upto_last_close cs = Some span ↔
  ∃ mid post, span = mid ++ ["]"%char] ∧ cs = span ++ post ∧ "]"%char ∉ post.
Proof.
  revert span. induction cs as [|c cs IH]; simpl; intros span.
  - split; [done|]. intros (mid & post & -> & Heq & _). by destruct mid.
  - destruct (upto_last_close cs) as [span'|] eqn:Hrest.
    + split.
      * intros [= <-].
        destruct (proj1 (IH span') eq_refl) as (mid & post & -> & -> & Hpost).
        exists (c :: mid), post. done.
      * intros (mid & post & -> & Heq & Hpost).
        destruct mid as [|c' mid]; simplify_eq/=.
        -- apply (proj2 (upto_last_close_None _)) in Hpost. congruence.
        -- f_equal. f_equal. symmetry.
           assert (Some span' = Some (mid ++ ["]"%char])) as [= ->]; [|done].
           apply IH. by exists mid, post.
    + apply upto_last_close_None in Hrest.
      destruct (Ascii.eqb_spec c "]") as [->|Hc].
      * split.
        -- intros [= <-]. by exists [], cs.
        -- intros (mid & post & -> & Heq & Hpost).
           destruct mid as [|c' mid]; simplify_eq/=; [done|].
           exfalso. apply Hrest. rewrite !elem_of_app, list_elem_of_singleton. auto.
      * split; [done|]. intros (mid & post & -> & Heq & Hpost).
        destruct mid as [|c' mid]; simplify_eq/=.
        exfalso. apply Hrest. rewrite !elem_of_app, list_elem_of_singleton. auto.
Qed.

(** A match runs from the first opening bracket to the last closing one. *)
Lemma bracket_match_Some s span :
  bracket_match s = Some span →
  ∃ pre mid post,
    chars s = pre ++ ["["%char] ++ mid ++ ["]"%char] ++ post ∧
    ("["%char ∉ pre) ∧ ("]"%char ∉ post) ∧
    chars span = ["["%char] ++ mid ++ ["]"%char].
Proof.
  unfold bracket_match.
  destruct (from_first_open (chars s)) as [rest|] eqn:Hopen; [|done].
  destruct (upto_last_close rest) as [inner|] eqn:Hclose; [|done].
  intros [= <-].
  apply from_first_open_Some in Hopen as (pre & Hs & Hpre).
  apply upto_last_close_Some in Hclose as (mid & post & -> & -> & Hpost).
  exists pre, mid, post. split_and!; [|done|done|].
  - rewrite Hs. simpl. by rewrite <-app_assoc.
  - unfold chars, text. simpl. by rewrite list_ascii_of_string_of_list_ascii.
Qed.

(** There is no match exactly when no closing bracket follows an opening one. *)
Lemma no_close_after_first_open cs rest :
  from_first_open cs = Some rest → "]"%char ∉ rest →
  ∀ pre mid post, cs ≠ pre ++ ["["%char] ++ mid ++ ["]"%char] ++ post.
Proof.
  revert rest. induction cs as [|c cs IH]; simpl; intros rest; [done|].
  destruct (Ascii.eqb_spec c "[") as [->|Hc].
  - intros [= ->] Hrest [|c' pre] mid post Heq; simplify_eq/=; apply Hrest; set_solver.
  - intros Hopen Hrest [|c' pre] mid post Heq; simplify_eq/=.
    by eapply IH.
Qed.

Lemma bracket_match_None s :
  bracket_match s = None →
  ∀ pre mid post, chars s ≠ pre ++ ["["%char] ++ mid ++ ["]"%char] ++ post.
Proof.
  unfold bracket_match.
  destruct (from_first_open (chars s)) as [rest|] eqn:Hopen.
  - destruct (upto_last_close rest) as [inner|] eqn:Hclose; [done|]. intros _.
    apply upto_last_close_None in Hclose. by eapply no_close_after_first_open.
  - intros _ pre mid post Heq.
    apply from_first_open_None in Hopen. apply Hopen.
    rewrite Heq, !elem_of_app, list_elem_of_singleton. auto.
Qed.

End Brackets.

(** ** The merge *)

Section Merge.

Lemma absent_false s : s ≠ "" → absent (Some s) = false.
Proof. intros Hs. simpl. by apply String.eqb_neq. Qed.

Lemma get_not_null r k : r ≠ JNull → get (Some r) k = Normal (opt_get (Some r) k).
Proof. by destruct r. Qed.

(** On results without a [null] entry the search never throws: it is the
    first matching entry. *)
Lemma Array_find_matches id items :
  Forall (λ r, r ≠ JNull) items →
  Array_find (λ result, v ← get (Some result) "id"; Normal (strict_eq_string v id)) items
  = Normal (List.find (matches id) items).
Proof.
  induction 1 as [|r items Hr _ IH]; [done|].
  cbn [Array_find List.find]. rewrite get_not_null by done.
  unfold matches at 1. cbn [mbind Completion_bind].
  destruct (strict_eq_string _ _); [done|exact IH].
Qed.

Lemma find_none_unmatched id items :
  Forall (λ r, matches id r = false) items → List.find (matches id) items = None.
Proof. induction 1 as [|r items Hr _ IH]; simpl; [done|]. by rewrite Hr. Qed.

(** Whatever the results, a record that comes out carries its email. *)
Lemma prioritizedEmail_email_of results email p :
  GmailAnalyze.prioritizedEmail results email = Normal p → email_of p = email.
Proof.
  unfold GmailAnalyze.prioritizedEmail.
  destruct (find _ _) as [analysis|e]; simpl; [|done].
  intros [= <-]. by destruct email.
Qed.

Lemma Array_map_Forall2 {A B : Type} (f : A → Completion B) xs ys :
  Array_map f xs = Normal ys → Forall2 (λ x y, f x = Normal y) xs ys.
Proof.
  revert ys. induction xs as [|x xs IH]; simpl; intros ys.
  - intros [= <-]. constructor.
  - destruct (f x) as [y|e] eqn:Hx; simpl; [|done].
    destruct (Array_map f xs) as [ys'|e]; simpl; [|done].
    intros [= <-]. constructor; [done|by apply IH].
Qed.

Lemma Array_map_total {A B : Type} (f : A → Completion B) (P : A → B → Prop) xs :
  Forall (λ x, ∃ y, f x = Normal y ∧ P x y) xs →
  ∃ ys, Array_map f xs = Normal ys ∧ Forall2 P xs ys.
Proof.
  induction 1 as [|x xs (y & Hy & HP) _ (ys & Hys & IH)]; simpl.
  - exists []. by split; [|constructor].
  - exists (y :: ys). rewrite Hy, Hys. by split; [|constructor].
Qed.

End Merge.

(** ** The path of a request through [gmail-analyze] *)

Section AnalyzePath.
Context `{Runtime}.

Lemma handler_replied world req emails reply :
  replied world req emails reply →
  ∃ key,
    GmailAnalyze.GEMINI_API_KEY world = Some key ∧
    GmailAnalyze.handler world req =
      Run [GeminiGenerate key (GmailAnalyze.emailsForAnalysis emails)]
          (Normal
             match (if String.eqb reply "" then Throw (Error "No response from Gemini")
                    else results ← GmailAnalyze.analysisResults (Some (JString reply));
                         merged ← GmailAnalyze.prioritizedEmails results emails;
                         Array_sort GmailAnalyze.compare merged) with
             | Normal sorted => Response.mk 200 (PrioritizedEmails sorted)
             | Throw e => Response.mk 500 (ErrorBody e)
             end).
Proof.
  intros (token & key & response & geminiData & Hmethod & Hjson & Htoken & Hemails
          & Hkey & Hkey' & Hfetch & Hok & Hdata & Htext).
  exists key. split; [done|].
  unfold GmailAnalyze.handler, GmailAnalyze.tryBlock, Request.read.
  apply String.eqb_neq in Hmethod. rewrite Hmethod, Hjson. cbn [await_json pure mbind Exec_bind].
  rewrite Hkey, (absent_false key) by done.
  cbn [GmailAnalyze.accessToken GmailAnalyze.emails from_option id].
  rewrite (absent_false token) by done. cbn [orb].
  destruct emails as [|email emails]; [done|]. cbn [length Nat.eqb].
  rewrite Hfetch. cbn [fetch mbind Exec_bind]. rewrite Hok. cbn [negb]. rewrite Hdata.
  cbn [await_json pure mbind Exec_bind]. rewrite Htext. cbn [truthy negb].
  destruct (String.eqb reply ""); cbn [negb]; [done|].
  destruct (GmailAnalyze.analysisResults _) as [results|e];
    cbn [pure mbind Exec_bind Completion_bind catch_all app]; [|done].
  destruct (GmailAnalyze.prioritizedEmails _ _) as [merged|e];
    cbn [pure mbind Exec_bind Completion_bind catch_all app]; [|done].
  by destruct (Array_sort _ _).
Qed.

Lemma analysisResults_string reply :
  GmailAnalyze.analysisResults (Some (JString reply))
  = match JSON_parse (default reply (bracket_match reply)) with
    | Some results => Normal results
    | None => Throw (Error "Invalid response format from Gemini")
    end.
Proof. unfold GmailAnalyze.analysisResults. by destruct (JSON_parse _). Qed.

Lemma handler_classified world req emails results :
  classified world req emails results →
  result (GmailAnalyze.handler world req)
  = Normal match (merged ← GmailAnalyze.prioritizedEmails results emails;
                  Array_sort GmailAnalyze.compare merged) with
           | Normal sorted => Response.mk 200 (PrioritizedEmails sorted)
           | Throw e => Response.mk 500 (ErrorBody e)
           end.
Proof.
  intros (reply & Hreplied & Hreply & Hparse).
  destruct (handler_replied _ _ _ _ Hreplied) as (key & _ & ->).
  apply String.eqb_neq in Hreply. rewrite Hreply, analysisResults_string, Hparse. done.
Qed.

Lemma compare_returns a b :
  comparable a = true → comparable b = true →
  GmailAnalyze.compare a b = Normal (difference a b).
Proof.
  unfold comparable, GmailAnalyze.compare, GmailAnalyze.priorityOrder_member, ToString.
  by intros -> ->.
Qed.

Lemma compare_throws a b :
  negb (comparable a) || negb (comparable b) = true →
  GmailAnalyze.compare a b = Throw TypeError.
Proof.
  unfold comparable, GmailAnalyze.compare, GmailAnalyze.priorityOrder_member, ToString.
  destruct (convertible (PrioritizedEmail.priority b)),
           (convertible (PrioritizedEmail.priority a)); done.
Qed.

(** The sort of the handler: of two records or more, one priority that
    cannot be converted ends it; it returns otherwise. *)
Lemma sort_of_comparable merged :
  Forall (λ p, comparable p = true) merged →
  Array_sort GmailAnalyze.compare merged = Normal (stable_sort difference merged).
Proof.
  intros Hall. apply Array_sort_returns. intros a b Ha Hb.
  rewrite Forall_forall in Hall. apply compare_returns; auto.
Qed.

Lemma sort_of_one merged :
  (length merged ≤ 1)%nat →
  Array_sort GmailAnalyze.compare merged = Normal merged.
Proof. destruct merged as [|p [|q merged]]; [done|done|cbn [length]; lia]. Qed.

Lemma sort_of_incomparable merged :
  (2 ≤ length merged)%nat → Exists (λ p, comparable p = false) merged →
  Array_sort GmailAnalyze.compare merged = Throw TypeError.
Proof.
  intros Hlength Hbad.
  apply (Array_sort_throws _ difference (λ p, negb (comparable p))); [| |done|].
  - intros a b. apply compare_throws.
  - intros a b [Ha Hb]%orb_false_iff.
    apply compare_returns; [by destruct (comparable a)|by destruct (comparable b)].
  - eapply Exists_impl; [done|]. by intros p ->.
Qed.

Lemma sort_returns_a_permutation merged :
  (length merged ≤ 1)%nat ∨ Forall (λ p, comparable p = true) merged →
  ∃ sorted, Array_sort GmailAnalyze.compare merged = Normal sorted ∧ sorted ≡ₚ merged.
Proof.
  intros [Hone|Hall].
  - exists merged. by rewrite sort_of_one.
  - exists (stable_sort difference merged).
    split; [by apply sort_of_comparable|apply stable_sort_permutation].
Qed.

End AnalyzePath.

(** ** The Result Merger and Ranker *)

Section MergerRanker.
Context `{Runtime}.

Lemma prioritizedEmail_normal items email :
  Forall (λ r, r ≠ JNull) items →
  ∃ p, GmailAnalyze.prioritizedEmail (JArray items) email = Normal p ∧
       email_of p = email ∧
       PrioritizedEmail.priority p
         = or_else (opt_get (List.find (matches (Email.id email)) items) "priority")
                   (JString "medium") ∧
       PrioritizedEmail.reasoning p
         = or_else (opt_get (List.find (matches (Email.id email)) items) "reasoning")
                   (JString "No analysis available").
Proof.
  intros Hitems. unfold GmailAnalyze.prioritizedEmail. cbn [find].
  rewrite Array_find_matches by done. cbn [mbind Completion_bind].
  eexists. split; [done|]. by destruct email.
Qed.

Lemma sortable_comparable items email p :
  Forall (λ r, sortable r = true) items →
  PrioritizedEmail.priority p
    = or_else (opt_get (List.find (matches (Email.id email)) items) "priority")
              (JString "medium") →
  comparable p = true.
Proof.
  intros Hitems Hpriority. unfold comparable. rewrite Hpriority.
  destruct (List.find _ items) as [analysis|] eqn:Hfind; [|done].
  apply find_some in Hfind as [Hin%list_elem_of_In _].
  rewrite Forall_forall in Hitems. specialize (Hitems _ Hin). unfold sortable in Hitems.
  unfold or_else. destruct (opt_get (Some analysis) "priority") as [priority|]; [|done].
  by destruct (truthy (Some priority)).
Qed.

(** C1 (amended).  For every Analyze batch and every parsed reply that is a
    JSON array with no [null] entry, the Result Merger produces exactly one
    PrioritizedEmail per input email, in input order (output length equals
    input length: no drops, no duplicates).  It runs over the full batch,
    not over the part of at most 100 emails sent for classification.  Every
    email whose id matches no result gets priority [medium] and reasoning
    [No analysis available].  When the batch is one email, or no result has
    a priority that cannot be converted to a property key, the response
    carries these records, reordered; when two emails or more are merged
    and one of them got such a priority, the comparator throws and the
    response is an error.  The prompt carries at most 100 emails. *)
Theorem merger_one_record_per_email world req emails items :
  classified world req emails (JArray items) →
  Forall (λ r, r ≠ JNull) items →
  ∃ merged,
    GmailAnalyze.prioritizedEmails (JArray items) emails = Normal merged ∧
    length merged = length emails ∧
    Forall2 (λ email p,
               PrioritizedEmail.id p = Email.id email ∧
               (Forall (λ r, matches (Email.id email) r = false) items →
                PrioritizedEmail.priority p = JString "medium" ∧
                PrioritizedEmail.reasoning p = JString "No analysis available"))
            emails merged ∧
    ((length emails ≤ 1)%nat ∨ Forall (λ r, sortable r = true) items →
     ∃ out,
       result (GmailAnalyze.handler world req)
         = Normal (Response.mk 200 (PrioritizedEmails out)) ∧
       out ≡ₚ merged ∧
       length out = length emails) ∧
    ((2 ≤ length emails)%nat → Exists (λ p, comparable p = false) merged →
     result (GmailAnalyze.handler world req)
       = Normal (Response.mk 500 (ErrorBody TypeError))) ∧
    length (GmailAnalyze.emailsForAnalysis emails) = (length emails `min` 100)%nat.
Proof.
  intros Hclassified Hitems.
  destruct (Array_map_total (GmailAnalyze.prioritizedEmail (JArray items))
              (λ email p,
                 (PrioritizedEmail.id p = Email.id email ∧
                  (Forall (λ r, matches (Email.id email) r = false) items →
                   PrioritizedEmail.priority p = JString "medium" ∧
                   PrioritizedEmail.reasoning p = JString "No analysis available")) ∧
                 (Forall (λ r, sortable r = true) items → comparable p = true))
              emails) as (merged & Hmerged & Hall).
  { apply Forall_forall. intros email _.
    destruct (prioritizedEmail_normal items email Hitems)
      as (p & Hp & Hemail & Hpriority & Hreasoning).
    exists p. split; [done|]. split; [split; [by rewrite <-Hemail|]|].
    - intros Hnone. rewrite Hpriority, Hreasoning, find_none_unmatched by done. done.
    - intros Hsortable. by apply (sortable_comparable items email). }
  exists merged. pose proof (Forall2_length _ _ _ Hall) as Hlen.
  rewrite (handler_classified _ _ _ _ Hclassified).
  unfold GmailAnalyze.prioritizedEmails in *. rewrite Hmerged.
  cbn [mbind Completion_bind].
  split_and!; [done|done| | | |].
  - eapply Forall2_impl; [done|]. by intros email p [? _].
  - intros Hsort.
    destruct (sort_returns_a_permutation merged) as (sorted & -> & Hperm).
    { destruct Hsort as [Hone|Hsortable]; [left; lia|right].
      clear -Hall Hsortable.
      induction Hall as [|email p ?? [_ Hp] _ IH]; constructor; auto. }
    exists sorted. split_and!; [done|done|]. by rewrite Hperm.
  - intros Htwo Hbad. rewrite sort_of_incomparable; [done|lia|done].
  - unfold GmailAnalyze.emailsForAnalysis, slice0. cbn [Z.ltb Z.compare].
    rewrite length_map, length_take. lia.
Qed.

Lemma priorityOrder_at_recognized p :
  recognized (PrioritizedEmail.priority p) →
  GmailAnalyze.priorityOrder_at (PrioritizedEmail.priority p) = Some (tier p).
Proof. unfold tier. by intros [-> | [-> | ->]]. Qed.

Lemma recognized_comparable p :
  recognized (PrioritizedEmail.priority p) → comparable p = true.
Proof. unfold comparable. by intros [-> | [-> | ->]]. Qed.

(** C2.  For every Analyze batch in which every merged priority is one of
    [high], [medium], [low], the returned list is the merged list reordered;
    it is non-increasing in tier under high=3, medium=2, low=1, the values
    [priorityOrder] gives them; and the sort is stable: the entries of each
    tier keep the relative order they have in the merged list.  No other
    list is both, so the answer does not depend on which stable sort the
    engine runs. *)
Theorem ranked_descending_and_stable world req emails results merged :
  classified world req emails results →
  GmailAnalyze.prioritizedEmails results emails = Normal merged →
  Forall (λ p, recognized (PrioritizedEmail.priority p)) merged →
  ∃ out,
    result (GmailAnalyze.handler world req)
      = Normal (Response.mk 200 (PrioritizedEmails out)) ∧
    out ≡ₚ merged ∧
    Forall (λ p, GmailAnalyze.priorityOrder_at (PrioritizedEmail.priority p)
                 = Some (tier p)) out ∧
    StronglySorted (λ a b, tier b ≤ tier a) out ∧
    (∀ t, filter (λ p, tier p = t) out = filter (λ p, tier p = t) merged) ∧
    ∀ out',
      StronglySorted (λ a b, tier b ≤ tier a) out' →
      (∀ t, filter (λ p, tier p = t) out' = filter (λ p, tier p = t) merged) →
      out' = out.
Proof.
  intros Hclassified Hmerged Hrecognized.
  exists (stable_sort (λ a b, tier b - tier a) merged).
  rewrite (handler_classified _ _ _ _ Hclassified), Hmerged.
  cbn [mbind Completion_bind].
  rewrite (Array_sort_returns _ (λ a b, tier b - tier a)).
  2:{ intros a b Ha Hb. rewrite Forall_forall in Hrecognized.
      rewrite compare_returns by (apply recognized_comparable; auto).
      unfold difference. by rewrite !priorityOrder_at_recognized by auto. }
  split_and!; [done|apply stable_sort_permutation| |apply stable_sort_descending| |].
  - rewrite stable_sort_permutation. eapply Forall_impl; [done|].
    apply priorityOrder_at_recognized.
  - intros t. apply stable_sort_stable.
  - intros out' Hsorted Hstable.
    apply (descending_stable_unique tier); [done|apply stable_sort_descending|].
    intros t. by rewrite Hstable, stable_sort_stable.
Qed.

End MergerRanker.

(** ** The frame of the merge, and the checks at the head of the handler *)

Section FrameAndChecks.
Context `{Runtime}.

Lemma emailsForAnalysis_bodies emails :
  Forall2 (λ email a,
             AnalysisEmail.id a = Email.id email ∧
             ∀ b, Email.body email = Some b → b ≠ "" →
                  AnalysisEmail.body a = String.substring 0 200 b)
          (take 100 emails) (GmailAnalyze.emailsForAnalysis emails).
Proof.
  unfold GmailAnalyze.emailsForAnalysis, slice0. cbn [Z.ltb Z.compare Z.to_nat Pos.to_nat].
  change (Pos.iter_op Init.Nat.add 100 1%nat) with 100%nat.
  apply Forall2_fmap_r, Forall_Forall2_diag, Forall_forall. intros email _.
  split; [done|]. intros b -> Hb. cbn.
  destruct b as [|c b]; [done|]. done.
Qed.

(** C9.  The merge leaves every field of each input email unchanged: the
    i-th merged record carries the id, subject, from, date, snippet and body
    of the i-th email verbatim, whatever the length of the body, and a
    response that holds records holds exactly these emails under the added
    priority, reasoning and gmailUrl.  The response does hold records when
    the batch is one email or every merged priority can be converted to a
    property key (the sort then returns).  The cut to 200 characters is
    made on the copy that goes into the prompt ([emailsForAnalysis])
    only. *)
Theorem merge_keeps_email_fields world req emails results merged :
  classified world req emails results →
  GmailAnalyze.prioritizedEmails results emails = Normal merged →
  Forall2 (λ email p,
             PrioritizedEmail.id p = Email.id email ∧
             PrioritizedEmail.subject p = Email.subject email ∧
             PrioritizedEmail.from p = Email.from email ∧
             PrioritizedEmail.date p = Email.date email ∧
             PrioritizedEmail.snippet p = Email.snippet email ∧
             PrioritizedEmail.body p = Email.body email)
          emails merged ∧
  (∀ status out,
     result (GmailAnalyze.handler world req)
       = Normal (Response.mk status (PrioritizedEmails out)) →
     email_of <$> out ≡ₚ emails) ∧
  ((length emails ≤ 1)%nat ∨ Forall (λ p, comparable p = true) merged →
   ∃ out,
     result (GmailAnalyze.handler world req)
       = Normal (Response.mk 200 (PrioritizedEmails out)) ∧
     email_of <$> out ≡ₚ emails) ∧
  Forall2 (λ email a,
             AnalysisEmail.id a = Email.id email ∧
             ∀ b, Email.body email = Some b → b ≠ "" →
                  AnalysisEmail.body a = String.substring 0 200 b)
          (take 100 emails) (GmailAnalyze.emailsForAnalysis emails).
Proof.
  intros Hclassified Hmerged.
  pose proof (Array_map_Forall2 _ _ _ Hmerged) as Hall.
  assert (Forall2 (λ email p, email_of p = email) emails merged) as Hemails.
  { eapply Forall2_impl; [exact Hall|]. intros email p.
    apply prioritizedEmail_email_of. }
  assert (email_of <$> merged = emails) as Hof.
  { clear -Hemails. induction Hemails; csimpl; congruence. }
  rewrite (handler_classified _ _ _ _ Hclassified), Hmerged.
  cbn [mbind Completion_bind].
  split_and!.
  - eapply Forall2_impl; [exact Hemails|]. by intros email p <-.
  - intros status out.
    destruct (Array_sort GmailAnalyze.compare merged) as [sorted|e] eqn:Hsort; [|done].
    intros [= <- <-]. apply Array_sort_Normal in Hsort. by rewrite Hsort, Hof.
  - intros Hsort.
    destruct (sort_returns_a_permutation merged) as (sorted & -> & Hperm).
    { destruct Hsort as [Hone|Hall']; [left|by right].
      apply Forall2_length in Hemails. lia. }
    exists sorted. split; [done|]. by rewrite Hperm, Hof.
  - apply emailsForAnalysis_bodies.
Qed.

(** C7 (amended).  For every classification result that is the first of
    the reply to match an input email: when its priority field is missing
    or falsy ([null], [false], [0], the empty string) the merged record
    carries priority [medium]; otherwise it carries the value of the field
    as it is, whether or not that is one of [high], [medium], [low]. *)
Theorem matched_priority_adopted_or_defaulted email before analysis after :
  Forall (λ r, r ≠ JNull ∧ matches (Email.id email) r = false) before →
  matches (Email.id email) analysis = true →
  ∃ p,
    GmailAnalyze.prioritizedEmail (JArray (before ++ analysis :: after)) email = Normal p ∧
    (truthy (opt_get (Some analysis) "priority") = false →
     PrioritizedEmail.priority p = JString "medium") ∧
    (∀ v, opt_get (Some analysis) "priority" = Some v → truthy (Some v) = true →
          PrioritizedEmail.priority p = v).
Proof.
  intros Hbefore Hmatch. unfold GmailAnalyze.prioritizedEmail. cbn [find].
  assert (Array_find
            (λ result, v ← get (Some result) "id";
                       Normal (strict_eq_string v (Email.id email)))
            (before ++ analysis :: after) = Normal (Some analysis)) as ->.
  { induction Hbefore as [|r before [Hr Hno] _ IH]; cbn [app Array_find].
    - assert (analysis ≠ JNull) by (by intros ->).
      rewrite get_not_null by done. cbn [mbind Completion_bind].
      unfold matches in Hmatch. by rewrite Hmatch.
    - rewrite get_not_null by done. cbn [mbind Completion_bind].
      unfold matches in Hno. by rewrite Hno. }
  cbn [mbind Completion_bind]. eexists. split; [done|]. cbn [PrioritizedEmail.priority].
  split.
  - intros Hfalsy. unfold or_else. rewrite Hfalsy. by destruct (opt_get _ _).
  - intros v Hv Htruthy. unfold or_else. by rewrite Hv, Htruthy.
Qed.

(** C6 (amended).  When the classification credential is configured, every
    Analyze request (one that is no pre-flight and whose body can be read)
    whose accessToken is missing or empty, or whose emails list is missing
    or empty, is answered with status 400 and the message
    [Access token and emails are required], and no classification call is
    made. *)
Theorem invalid_request_400 world req body key :
  Request.method req ≠ "OPTIONS" →
  Request.json req = Some body →
  GmailAnalyze.GEMINI_API_KEY world = Some key → key ≠ "" →
  GmailAnalyze.accessToken body = None ∨ GmailAnalyze.accessToken body = Some "" ∨
  GmailAnalyze.emails body = None ∨ GmailAnalyze.emails body = Some [] →
  GmailAnalyze.handler world req
  = Run [] (Normal (Response.mk 400
                      (ErrorBody (Error "Access token and emails are required")))).
Proof.
  intros Hmethod Hjson Hkey Hkey' Hinvalid.
  unfold GmailAnalyze.handler, GmailAnalyze.tryBlock, Request.read.
  apply String.eqb_neq in Hmethod. rewrite Hmethod, Hjson.
  cbn [await_json pure mbind Exec_bind]. rewrite Hkey, (absent_false key) by done.
  assert (absent (GmailAnalyze.accessToken body)
          || match GmailAnalyze.emails body with
             | Some emails => Nat.eqb (length emails) 0
             | None => true
             end = true) as ->; [|done].
  destruct Hinvalid as [-> | [-> | [-> | ->]]]; try done; apply orb_true_r.
Qed.

(** C10.  The credential check precedes input validation: while the
    classification credential is unconfigured (missing or empty), every
    Analyze request (one that is no pre-flight) is answered with status 500
    and no call is made, whatever the accessToken and the emails list; when
    the body can be read the message is [Gemini API key not configured].
    The 400 branch is not reached. *)
Theorem unconfigured_key_500 world req :
  Request.method req ≠ "OPTIONS" →
  GmailAnalyze.GEMINI_API_KEY world = None ∨ GmailAnalyze.GEMINI_API_KEY world = Some "" →
  calls (GmailAnalyze.handler world req) = [] ∧
  ∃ e, result (GmailAnalyze.handler world req) = Normal (Response.mk 500 (ErrorBody e)) ∧
       (is_Some (Request.json req) → e = Error "Gemini API key not configured").
Proof.
  intros Hmethod Hunset.
  assert (absent (GmailAnalyze.GEMINI_API_KEY world) = true) as Hkey.
  { by destruct Hunset as [-> | ->]. }
  unfold GmailAnalyze.handler, GmailAnalyze.tryBlock, Request.read.
  apply String.eqb_neq in Hmethod. rewrite Hmethod.
  destruct (Request.json req) as [body|]; cbn [await_json pure mbind Exec_bind].
  - rewrite Hkey. split; [done|]. by eexists.
  - split; [done|]. eexists. split; [done|]. by intros [? ?].
Qed.

End FrameAndChecks.

(** ** The Response Parser *)

Section ResponseParser.

(** C3.  For every reply text and every runtime: the span the Response
    Parser hands to [JSON.parse] is the match of the bracket pattern, which
    runs from the first opening bracket of the text to its last closing
    bracket, and there is no match only when no closing bracket follows an
    opening one, in which case the raw text is parsed; the parser returns
    what [JSON.parse] returns and raises [Invalid response format from
    Gemini] when it fails; and a request whose reply fails to parse ends
    with status 500 and an error body, no priority set.  For the reply of
    section 8 the span is exactly the bracketed array and the result is the
    one entry for id [a]. *)
Theorem response_parser :
  (∀ (runtime : Runtime) (reply : string),
     (∀ span, bracket_match reply = Some span →
        ∃ pre mid post,
          chars reply = pre ++ ["["%char] ++ mid ++ ["]"%char] ++ post ∧
          ("["%char ∉ pre) ∧ ("]"%char ∉ post) ∧
          chars span = ["["%char] ++ mid ++ ["]"%char]) ∧
     (bracket_match reply = None →
        ∀ pre mid post, chars reply ≠ pre ++ ["["%char] ++ mid ++ ["]"%char] ++ post) ∧
     GmailAnalyze.analysisResults (Some (JString reply))
       = match JSON_parse (default reply (bracket_match reply)) with
         | Some results => Normal results
         | None => Throw (Error "Invalid response format from Gemini")
         end ∧
     (∀ world req emails,
        replied world req emails reply →
        JSON_parse (default reply (bracket_match reply)) = None →
        result (GmailAnalyze.handler world req)
        = Normal (Response.mk 500
                    (ErrorBody (Error (if String.eqb reply ""
                                       then "No response from Gemini"
                                       else "Invalid response format from Gemini"))))))
  ∧ bracket_match example_reply = Some example_span
  ∧ @GmailAnalyze.analysisResults reference_runtime (Some (JString example_reply))
    = Normal (JArray [JObject [("id", JString "a"); ("priority", JString "high");
                               ("reasoning", JString "urgent")]]).
Proof.
  split_and!; [|by vm_compute|by vm_compute].
  intros runtime reply. split_and!.
  - apply bracket_match_Some.
  - apply bracket_match_None.
  - apply analysisResults_string.
  - intros world req emails Hreplied Hparse.
    destruct (handler_replied _ _ _ _ Hreplied) as (key & _ & ->). cbn [result].
    destruct (String.eqb reply ""); [done|].
    by rewrite analysisResults_string, Hparse.
Qed.

End ResponseParser.

(** ** gmail-analyze on concrete requests *)

Section AnalyzeRuns.

Lemma example_replied reply emails :
  emails ≠ [] →
  replied (analyze_world (Some "key") reply) (analyze_request (Some "token") (Some emails))
          emails reply.
Proof.
  intros Hemails.
  exists "token", "key", (Upstream.mk 200 (Some (gemini_says reply))), (gemini_says reply).
  split_and!; done.
Qed.

(** C1, counterexample: the reply [[null]] parses, and the search for the
    result of the first email reads [id] off [null]; the request ends with
    status 500 and no record at all. *)
Lemma null_entry_aborts_the_merge :
  JSON_parse "[null]" = Some (JArray [JNull]) ∧
  GmailAnalyze.prioritizedEmails (JArray [JNull]) [email "a" None] = Throw TypeError ∧
  GmailAnalyze.handler (analyze_world (Some "key") "[null]")
                       (analyze_request (Some "token") (Some [email "a" None]))
  = Run [GeminiGenerate "key" (GmailAnalyze.emailsForAnalysis [email "a" None])]
        (Normal (Response.mk 500 (ErrorBody TypeError))).
Proof. by vm_compute. Qed.

(** C1, witness: a batch of 101 emails, one more than the prompt takes,
    comes back as 101 records. *)
Lemma merger_covers_the_whole_batch :
  length (GmailAnalyze.emailsForAnalysis long_batch) = 100%nat ∧
  ∃ out,
    result (GmailAnalyze.handler (analyze_world (Some "key") example_reply)
                                 (analyze_request (Some "token") (Some long_batch)))
    = Normal (Response.mk 200 (PrioritizedEmails out)) ∧
    length out = 101%nat.
Proof.
  split; [by vm_compute|].
  destruct (merger_one_record_per_email
              (analyze_world (Some "key") example_reply)
              (analyze_request (Some "token") (Some long_batch))
              long_batch
              [JObject [("id", JString "a"); ("priority", JString "high");
                        ("reasoning", JString "urgent")]])
    as (merged & _ & _ & _ & Hanswer & _).
  - exists example_reply. split_and!; [by apply example_replied|done|by vm_compute].
  - by repeat constructor.
  - destruct Hanswer as (out & Hout & _ & Hlength); [right; by repeat constructor|].
    exists out. split; [exact Hout|exact Hlength].
Defined.

(** A priority that cannot be converted to a property key: the merge
    adopts it, and with a second email to compare with, the comparator
    throws; a batch of that one email is answered. *)
Lemma unconvertible_priority_aborts_the_sort :
  GmailAnalyze.prioritizedEmails
    (JArray [JObject [("id", JString "a");
                      ("priority", JObject [("toString", JNumber 1)])]])
    [email "a" None; email "b" None]
  = Normal
      [{| PrioritizedEmail.id := "a";
          PrioritizedEmail.subject := Email.subject (email "a" None);
          PrioritizedEmail.from := Email.from (email "a" None);
          PrioritizedEmail.date := Email.date (email "a" None);
          PrioritizedEmail.snippet := Email.snippet (email "a" None);
          PrioritizedEmail.body := None;
          PrioritizedEmail.priority := JObject [("toString", JNumber 1)];
          PrioritizedEmail.reasoning := JString "No analysis available";
          PrioritizedEmail.gmailUrl := "https://mail.google.com/mail/u/0/#inbox/a" |};
       {| PrioritizedEmail.id := "b";
          PrioritizedEmail.subject := Email.subject (email "b" None);
          PrioritizedEmail.from := Email.from (email "b" None);
          PrioritizedEmail.date := Email.date (email "b" None);
          PrioritizedEmail.snippet := Email.snippet (email "b" None);
          PrioritizedEmail.body := None;
          PrioritizedEmail.priority := JString "medium";
          PrioritizedEmail.reasoning := JString "No analysis available";
          PrioritizedEmail.gmailUrl := "https://mail.google.com/mail/u/0/#inbox/b" |}] ∧
  result (GmailAnalyze.handler (analyze_world (Some "key") unconvertible_reply)
                               (analyze_request (Some "token")
                                  (Some [email "a" None; email "b" None])))
  = Normal (Response.mk 500 (ErrorBody TypeError)) ∧
  ∃ p,
    result (GmailAnalyze.handler (analyze_world (Some "key") unconvertible_reply)
                                 (analyze_request (Some "token") (Some [email "a" None])))
    = Normal (Response.mk 200 (PrioritizedEmails [p])) ∧
    PrioritizedEmail.priority p = JObject [("toString", JNumber 1)].
Proof. split_and!; [by vm_compute..|]. eexists. split; by vm_compute. Qed.

(** C2, witness: [c] is low, [a] is high, the two emails [b1] and [b2] have
    no result; the answer lists [a], then [b1] and [b2] in their order, then
    [c]. *)
Lemma ranking_of_four :
  ∃ out,
    result (GmailAnalyze.handler
              (analyze_world (Some "key") two_results_reply)
              (analyze_request (Some "token")
                 (Some [email "c" None; email "b1" None; email "a" None; email "b2" None])))
    = Normal (Response.mk 200 (PrioritizedEmails out)) ∧
    PrioritizedEmail.id <$> out = ["a"; "b1"; "b2"; "c"] ∧
    StronglySorted (λ a b, tier b ≤ tier a) out.
Proof.
  edestruct (ranked_descending_and_stable
               (analyze_world (Some "key") two_results_reply)
               (analyze_request (Some "token")
                  (Some [email "c" None; email "b1" None; email "a" None; email "b2" None])))
    as (out & Hout & _ & _ & Hsorted & _ & _).
  - exists two_results_reply. split_and!; [by apply example_replied|done|by vm_compute].
  - by vm_compute.
  - repeat (constructor; [unfold recognized; cbn; auto|]). constructor.
  - exists out. split_and!; [exact Hout| |exact Hsorted].
    vm_compute in Hout. by injection Hout as <-.
Defined.

(** C3, witness: a reply without brackets that is no JSON ends the request
    with status 500 and the parser's message. *)
Lemma prose_reply_is_refused :
  result (GmailAnalyze.handler
            (analyze_world (Some "key") "I cannot help with that.")
            (analyze_request (Some "token") (Some [email "a" None])))
  = Normal (Response.mk 500 (ErrorBody (Error "Invalid response format from Gemini"))).
Proof.
  destruct response_parser as [Hparser _].
  destruct (Hparser reference_runtime "I cannot help with that.") as (_ & _ & _ & Hfails).
  apply (Hfails _ _ [email "a" None]); [by apply example_replied|by vm_compute].
Defined.

(** C6, counterexample: no token, and no key in the environment; the
    answer is the 500 of the key check, not a 400. *)
Lemma missing_token_without_key_is_500 :
  GmailAnalyze.handler (analyze_world None example_reply)
                       (analyze_request None (Some [email "a" None]))
  = Run [] (Normal (Response.mk 500 (ErrorBody (Error "Gemini API key not configured")))) ∧
  Response.status (Response.mk 500 (ErrorBody (Error "Gemini API key not configured"))) ≠ 400.
Proof. by vm_compute. Qed.

(** C6, witness: no token, key configured. *)
Lemma missing_token_is_400 :
  GmailAnalyze.handler (analyze_world (Some "key") example_reply)
                       (analyze_request None (Some [email "a" None]))
  = Run [] (Normal (Response.mk 400
                      (ErrorBody (Error "Access token and emails are required")))).
Proof.
  eapply (invalid_request_400 _ _ _ "key"); [done|reflexivity|done|done|by left].
Defined.

(** C7, counterexample: the one result matches email [a] and says
    [urgent]; the record carries [urgent], not [medium]. *)
Lemma unrecognized_priority_is_kept :
  ∃ p,
    GmailAnalyze.handler (analyze_world (Some "key") urgent_reply)
                         (analyze_request (Some "token") (Some [email "a" None]))
    = Run [GeminiGenerate "key" (GmailAnalyze.emailsForAnalysis [email "a" None])]
          (Normal (Response.mk 200 (PrioritizedEmails [p]))) ∧
    PrioritizedEmail.id p = "a" ∧
    PrioritizedEmail.priority p = JString "urgent" ∧
    ¬ recognized (PrioritizedEmail.priority p) ∧
    PrioritizedEmail.priority p ≠ JString "medium".
Proof.
  eexists. split; [by vm_compute|]. cbn. split_and!; try done.
  by intros [? | [? | ?]].
Qed.

(** C7, witness: the same result, through the theorem. *)
Lemma urgent_is_adopted :
  ∃ p,
    GmailAnalyze.prioritizedEmail
      (JArray [JObject [("id", JString "a"); ("priority", JString "urgent")]])
      (email "a" None) = Normal p ∧
    PrioritizedEmail.priority p = JString "urgent".
Proof.
  destruct (matched_priority_adopted_or_defaulted (email "a" None) []
              (JObject [("id", JString "a"); ("priority", JString "urgent")]) [])
    as (p & Hp & _ & Hadopted); [constructor|done|].
  exists p. split; [exact Hp|]. by apply Hadopted.
Defined.

(** C9, witness: a body of 260 characters comes back whole, while the
    prompt carries its first 200. *)
Lemma long_body_comes_back_whole :
  (∃ out,
     result (GmailAnalyze.handler
               (analyze_world (Some "key") example_reply)
               (analyze_request (Some "token") (Some [email "a" (Some long_body)])))
     = Normal (Response.mk 200 (PrioritizedEmails out)) ∧
     email_of <$> out ≡ₚ [email "a" (Some long_body)]) ∧
  String.length long_body = 260%nat ∧
  (String.length ∘ AnalysisEmail.body)
    <$> GmailAnalyze.emailsForAnalysis [email "a" (Some long_body)] = [200%nat].
Proof.
  split; [|by vm_compute].
  edestruct (merge_keeps_email_fields
               (analyze_world (Some "key") example_reply)
               (analyze_request (Some "token") (Some [email "a" (Some long_body)])))
    as (_ & _ & Hout & _).
  - exists example_reply. split_and!; [by apply example_replied|done|by vm_compute].
  - by vm_compute.
  - apply Hout. left. cbn [length]. lia.
Defined.

(** C10, witness: nothing in the request and no key: 500, and no call. *)
Lemma empty_request_without_key_is_500 :
  calls (GmailAnalyze.handler (analyze_world None example_reply)
                              (analyze_request None None)) = [] ∧
  ∃ e,
    result (GmailAnalyze.handler (analyze_world None example_reply)
                                 (analyze_request None None))
    = Normal (Response.mk 500 (ErrorBody e)) ∧
    (is_Some (Request.json (analyze_request None None)) →
     e = Error "Gemini API key not configured").
Proof. apply unconfigured_key_500; [done|by left]. Defined.

End AnalyzeRuns.

(** ** The Body Decoder and the Message Hydrator *)

Section Fetch.
Context `{Runtime}.

Lemma scan_part_json parts :
  GmailFetch.scan (part_json <$> parts)
  = match first_some plain_text_blob parts with
    | Some blob => GmailFetch.decode (JString blob)
    | None => Normal ""
    end.
Proof.
  induction parts as [|[mimeType headers blob sub] parts IH]; [done|].
  cbn [fmap list_fmap GmailFetch.scan part_json first_some plain_text_blob].
  cbn [get assoc String.eqb Ascii.eqb Bool.eqb mbind Completion_bind opt_get
       strict_eq_string].
  destruct (String.eqb mimeType "text/plain"); cbn [andb]; [|exact IH].
  destruct blob as [data|]; cbn [assoc String.eqb Ascii.eqb Bool.eqb truthy carried];
    [|exact IH].
  destruct (String.eqb data ""); cbn [negb]; [exact IH|done].
Qed.

Lemma body_part_json p :
  GmailFetch.body (Some (part_json p))
  = match selected p with
    | Some blob => GmailFetch.decode (JString blob)
    | None => Normal ""
    end.
Proof.
  destruct p as [mimeType headers blob parts]. unfold GmailFetch.body.
  cbn [part_json opt_get assoc String.eqb Ascii.eqb Bool.eqb selected].
  destruct blob as [data|]; cbn [assoc String.eqb Ascii.eqb Bool.eqb truthy carried].
  - destruct (String.eqb data "") eqn:Hdata; cbn [negb]; [|done].
    destruct parts as [|q parts]; [done|]. cbn [assoc String.eqb Ascii.eqb Bool.eqb truthy].
    apply (scan_part_json (q :: parts)).
  - destruct parts as [|q parts]; [done|]. cbn [assoc String.eqb Ascii.eqb Bool.eqb truthy].
    apply (scan_part_json (q :: parts)).
Qed.

Lemma first_some_none {X Y : Type} (f : X → option Y) xs :
  Forall (λ x, f x = None) xs → first_some f xs = None.
Proof. induction 1 as [|x xs Hx _ IH]; simpl; [done|]. by rewrite Hx. Qed.

Lemma first_some_first {X Y : Type} (f : X → option Y) before x after y :
  Forall (λ x, f x = None) before → f x = Some y →
  first_some f (before ++ x :: after) = Some y.
Proof.
  induction 1 as [|x' before Hx' _ IH]; simpl; intros Hx; [by rewrite Hx|].
  rewrite Hx'. by apply IH.
Qed.

(** C5 (amended).  For every message content payload: if it has a non-empty
    top-level blob the Body Decoder returns the decoded content of that
    blob.  Otherwise it scans the payload's DIRECT parts, in order, and
    returns the decoded content of the first one whose MIME type is exactly
    [text/plain] and which carries a non-empty blob, looking no further;
    parts nested below the direct ones are not visited.  When there is no
    top-level blob and no such direct part it returns the empty string. *)
Theorem body_selects_among_direct_parts mimeType headers blob parts :
  (∀ data,
     carried blob = Some data →
     GmailFetch.body (Some (part_json (Part mimeType headers blob parts)))
     = GmailFetch.decode (JString data)) ∧
  (carried blob = None →
   (∀ before part after data,
      parts = before ++ part :: after →
      Forall (λ q, plain_text_blob q = None) before →
      plain_text_blob part = Some data →
      GmailFetch.body (Some (part_json (Part mimeType headers blob parts)))
      = GmailFetch.decode (JString data)) ∧
   (Forall (λ q, plain_text_blob q = None) parts →
    GmailFetch.body (Some (part_json (Part mimeType headers blob parts))) = Normal "")).
Proof.
  rewrite body_part_json. cbn [selected]. split.
  - by intros data ->.
  - intros ->. split.
    + intros before part after data -> Hbefore Hpart.
      by rewrite (first_some_first _ _ _ _ _ Hbefore Hpart).
    + intros Hnone. by rewrite first_some_none.
Qed.

End Fetch.

Section Hydrator.
Context `{Runtime}.

Lemma handler_listed world req token attempted :
  listed world req token attempted →
  result (GmailFetch.handler world req)
  = Normal
      match result (Promise_all (GmailFetch.hydrate world token <$> attempted)) with
      | Normal emailDetails =>
          Response.mk 200 (Messages (omap (λ email, email) emailDetails))
      | Throw e => Response.mk 500 (ErrorBody e)
      end.
Proof.
  intros (cap & listing & emailList & items & Hmethod & Hjson & Htoken & Hlist & Hok
          & Hdata & Hmessages & ->).
  unfold GmailFetch.handler, GmailFetch.tryBlock, Request.read.
  apply String.eqb_neq in Hmethod. rewrite Hmethod, Hjson.
  cbn [await_json pure mbind Exec_bind GmailFetch.accessToken GmailFetch.maxResults].
  rewrite (absent_false token) by done. cbn [from_option id].
  rewrite Hlist. cbn [fetch mbind Exec_bind]. rewrite Hok. cbn [negb]. rewrite Hdata.
  cbn [await_json pure mbind Exec_bind]. rewrite Hmessages. cbn [truthy negb].
  destruct (Promise_all _) as [c [emailDetails|e]]; done.
Qed.

Lemma Promise_all_settled {A B : Type} (f : A → Exec B) xs :
  Forall (λ x, ∃ y, result (f x) = Normal y) xs →
  ∃ ys, result (Promise_all (f <$> xs)) = Normal ys ∧
        Forall2 (λ x y, result (f x) = Normal y) xs ys.
Proof.
  induction 1 as [|x xs (y & Hy) _ (ys & Hys & IH)]; csimpl.
  - exists []. by split; [|constructor].
  - exists (y :: ys). split; [|by constructor].
    destruct (f x) as [c r], (Promise_all _) as [cs rs].
    simpl in *. by subst.
Qed.

Lemma Promise_all_rejected {A B : Type} (f : A → Exec B) xs x e :
  x ∈ xs → result (f x) = Throw e →
  ∃ e', result (Promise_all (f <$> xs)) = Throw e'.
Proof.
  intros Hx Hthrow. induction xs as [|x' xs IH]; [by apply elem_of_nil in Hx|].
  csimpl. destruct (f x') as [c [y|e0]] eqn:Hx'.
  - apply elem_of_cons in Hx as [->|Hx].
    + rewrite Hx' in Hthrow. done.
    + destruct (IH Hx) as (e' & He'). destruct (Promise_all _) as [cs rs].
      simpl in *. subst. by exists e'.
  - destruct (Promise_all _) as [cs rs]. by exists e0.
Qed.

(** A lookup that settles yields [null] exactly when it was refused. *)
Lemma hydrate_null world token message r :
  result (GmailFetch.hydrate world token message) = Normal r →
  fetch_failed world token message = bool_decide (r = None).
Proof.
  unfold GmailFetch.hydrate, fetch_failed.
  destruct (get (Some message) "id") as [id|e]; cbn [pure mbind Exec_bind result]; [|done].
  destruct (ToString id) as [[]|e]; cbn [pure mbind Exec_bind result]; [|done].
  destruct (GmailFetch.getMessage world token id) as [response|];
    cbn [fetch mbind Exec_bind result]; [|done].
  destruct (Upstream.ok response); cbn [negb].
  - destruct (Upstream.json response) as [detail|];
      cbn [await_json pure mbind Exec_bind result]; [|done].
    destruct (GmailFetch.normalize id detail);
      cbn [await_json pure mbind Exec_bind mret Exec_ret result]; [|done].
    by intros [= <-].
  - cbn. by intros [= <-].
Qed.

(** A refused lookup settles, with [null]. *)
Lemma hydrate_refused world token message :
  fetch_failed world token message = true →
  result (GmailFetch.hydrate world token message) = Normal None.
Proof.
  unfold GmailFetch.hydrate, fetch_failed.
  destruct (get (Some message) "id") as [id|e]; cbn [pure mbind Exec_bind result]; [|done].
  destruct (ToString id) as [[]|e]; cbn [pure mbind Exec_bind result]; [|done].
  destruct (GmailFetch.getMessage world token id) as [response|];
    cbn [fetch mbind Exec_bind result]; [|done].
  by destruct (Upstream.ok response).
Qed.

Lemma valid_emails world token attempted emailDetails :
  Forall2 (λ m r, result (GmailFetch.hydrate world token m) = Normal r)
          attempted emailDetails →
  Forall2 (λ m record, result (GmailFetch.hydrate world token m) = Normal (Some record))
          (filter (λ m, fetch_failed world token m = false) attempted)
          (omap (λ email, email) emailDetails) ∧
  (length (omap (λ email, email) emailDetails)
   + length (filter (λ m, fetch_failed world token m = true) attempted)
   = length attempted)%nat.
Proof.
  induction 1 as [|m r attempted emailDetails Hm _ [IH1 IH2]]; [by split; [constructor|]|].
  pose proof (hydrate_null _ _ _ _ Hm) as Hnull.
  rewrite !filter_cons. csimpl. destruct r as [record|].
  - rewrite bool_decide_eq_false_2 in Hnull by done.
    rewrite decide_True, decide_False by (by rewrite ?Hnull).
    split; [by constructor|]. simpl. lia.
  - rewrite bool_decide_eq_true_2 in Hnull by done.
    rewrite decide_False, decide_True by (by rewrite ?Hnull).
    split; [done|]. simpl. lia.
Qed.

(** C8 (amended).  For every listing of which the handler attempts N
    messages, M of them looked up and answered by a non-success response,
    PROVIDED each of the other N - M yields a record (its id can be read and
    put into the address, its lookup is not rejected, and the reply is one
    the handler can normalize: JSON of a readable shape whose selected blob
    decodes), the List+Hydrate operation answers 200 with exactly N - M
    records: those of the successful lookups, in listing order.  Nothing is
    assumed of the M refused lookups: each of them settles with [null] and
    causes no error. *)
Theorem hydrator_drops_refused_lookups world req token attempted N M :
  listed world req token attempted →
  length attempted = N →
  length (filter (λ m, fetch_failed world token m = true) attempted) = M →
  Forall (λ m, fetch_failed world token m = false →
               ∃ record, result (GmailFetch.hydrate world token m) = Normal (Some record))
         attempted →
  ∃ records,
    result (GmailFetch.handler world req) = Normal (Response.mk 200 (Messages records)) ∧
    length records = (N - M)%nat ∧
    Forall2 (λ m record,
               result (GmailFetch.hydrate world token m) = Normal (Some record))
            (filter (λ m, fetch_failed world token m = false) attempted) records.
Proof.
  intros Hlisted <- <- Hothers.
  assert (Forall (λ m, ∃ r, result (GmailFetch.hydrate world token m) = Normal r)
                 attempted) as Hsettled.
  { eapply Forall_impl; [exact Hothers|]. intros m Hm.
    destruct (fetch_failed world token m) eqn:Hfailed.
    - exists None. by apply hydrate_refused.
    - destruct (Hm Hfailed) as (record & Hrecord). by exists (Some record). }
  destruct (Promise_all_settled _ _ Hsettled) as (emailDetails & Hall & Heach).
  destruct (valid_emails _ _ _ _ Heach) as [Hrecords Hlength].
  exists (omap (λ email, email) emailDetails).
  rewrite (handler_listed _ _ _ _ Hlisted), Hall. split_and!; [done|lia|done].
Qed.

End Hydrator.

Section Abort.
Context `{Runtime}.

Lemma normalize_throws id detail payload e :
  get (Some detail) "payload" = Normal payload →
  GmailFetch.body payload = Throw e →
  ∃ e', GmailFetch.normalize id detail = Throw e'.
Proof.
  intros Hpayload Hbody. unfold GmailFetch.normalize.
  rewrite Hpayload. cbn [mbind Completion_bind].
  destruct (GmailFetch.header _ "Subject"); cbn [mbind Completion_bind]; [|by eexists].
  destruct (GmailFetch.header _ "From"); cbn [mbind Completion_bind]; [|by eexists].
  destruct (GmailFetch.header _ "Date"); cbn [mbind Completion_bind]; [|by eexists].
  rewrite Hbody. by eexists.
Qed.

Lemma hydrate_throws world token message id response detail payload e :
  get (Some message) "id" = Normal id →
  GmailFetch.getMessage world token id = Some response →
  Upstream.ok response = true →
  Upstream.json response = Some detail →
  get (Some detail) "payload" = Normal payload →
  GmailFetch.body payload = Throw e →
  ∃ e', result (GmailFetch.hydrate world token message) = Throw e'.
Proof.
  intros Hid Hget Hok Hjson Hpayload Hbody.
  destruct (normalize_throws id _ _ _ Hpayload Hbody) as (e' & Hthrow).
  unfold GmailFetch.hydrate.
  rewrite Hid. cbn [pure mbind Exec_bind].
  destruct (ToString id) as [[]|e0]; cbn [pure mbind Exec_bind]; [|by exists e0].
  exists e'. rewrite Hget. cbn [fetch mbind Exec_bind].
  rewrite Hok. cbn [negb]. rewrite Hjson. cbn [await_json pure mbind Exec_bind].
  by rewrite Hthrow.
Qed.

(** C4 (amended).  For every message content payload the Body Decoder
    returns a string without raising when no blob is selected (the empty
    string) and when the selected blob is valid base64 after the URL-safe
    translation (its decoded content).  When the selected blob is not valid
    base64 the decoder raises [InvalidCharacterError]; and whenever the
    decoder raises on the payload of a message whose lookup succeeded, the
    enclosing List+Hydrate request ends with status 500 and an error body,
    not with a list of records. *)
Theorem body_decoder_raises_on_invalid_base64 :
  (∀ p : MessagePart,
     (selected p = None → GmailFetch.body (Some (part_json p)) = Normal "") ∧
     (∀ blob decoded,
        selected p = Some blob → atob (base64url_to_base64 blob) = Some decoded →
        GmailFetch.body (Some (part_json p)) = Normal decoded) ∧
     (∀ blob,
        selected p = Some blob → atob (base64url_to_base64 blob) = None →
        GmailFetch.body (Some (part_json p)) = Throw InvalidCharacterError)) ∧
  (∀ world req token attempted message id response detail payload e,
     listed world req token attempted →
     message ∈ attempted →
     get (Some message) "id" = Normal id →
     GmailFetch.getMessage world token id = Some response →
     Upstream.ok response = true →
     Upstream.json response = Some detail →
     get (Some detail) "payload" = Normal payload →
     GmailFetch.body payload = Throw e →
     ∃ e', result (GmailFetch.handler world req)
           = Normal (Response.mk 500 (ErrorBody e'))).
Proof.
  split.
  - intros p. rewrite body_part_json. split_and!.
    + by intros ->.
    + intros blob decoded -> Hdecoded. cbn [GmailFetch.decode]. by rewrite Hdecoded.
    + intros blob -> Hdecoded. cbn [GmailFetch.decode]. by rewrite Hdecoded.
  - intros world req token attempted message id response detail payload e
           Hlisted Hin Hid Hget Hok Hjson Hpayload Hbody.
    destruct (hydrate_throws world token _ _ _ _ _ _ Hid Hget Hok Hjson Hpayload Hbody)
      as (e1 & Hthrow).
    destruct (Promise_all_rejected _ _ _ _ Hin Hthrow) as (e' & Hall).
    exists e'. by rewrite (handler_listed _ _ _ _ Hlisted), Hall.
Qed.

End Abort.

(** ** gmail-fetch on concrete mailboxes *)

Section FetchRuns.

Lemma example_listed listing lookup cap :
  listed (mailbox listing lookup) (fetch_request (Some "token") cap) "token"
         (slice0 (default 10 cap) (message_ref <$> listing)).
Proof.
  exists cap,
         (Upstream.mk 200 (Some (JObject [("messages", JArray (message_ref <$> listing))]))),
         (JObject [("messages", JArray (message_ref <$> listing))]),
         (message_ref <$> listing).
  split_and!; done.
Qed.

(** C4, counterexample: the blob [!] is no base64; [atob] throws, so does
    the Body Decoder, and the request for the one-message listing ends with
    status 500. *)
Lemma invalid_blob_aborts_the_listing :
  atob (base64url_to_base64 "!") = None ∧
  GmailFetch.body (Some (part_json broken_payload)) = Throw InvalidCharacterError ∧
  result (GmailFetch.handler (mailbox ["m2"] one_broken) (fetch_request (Some "token") None))
  = Normal (Response.mk 500 (ErrorBody InvalidCharacterError)).
Proof. by vm_compute. Qed.

(** C4, witness: a valid blob decodes. *)
Lemma valid_blob_decodes :
  GmailFetch.body (Some (part_json plain_payload)) = Normal "hello world".
Proof.
  destruct body_decoder_raises_on_invalid_base64 as [Hbody _].
  destruct (Hbody plain_payload) as (_ & Hvalid & _).
  by apply (Hvalid "aGVsbG8gd29ybGQ=").
Defined.

(** C5, counterexample: the only plain-text part lies one level below the
    direct parts.  A depth-first scan selects its blob, which decodes to
    [hi]; the handler returns the empty string. *)
Lemma nested_plain_text_is_not_found :
  spec_selected nested_payload = Some "aGk=" ∧
  atob (base64url_to_base64 "aGk=") = Some "hi" ∧
  GmailFetch.body (Some (part_json nested_payload)) = Normal "" ∧
  GmailFetch.body (Some (part_json nested_payload)) ≠ Normal "hi".
Proof. by vm_compute. Qed.

(** C5, witness: of the two plain-text parts among the direct parts the
    first is decoded. *)
Lemma first_direct_plain_text_wins :
  GmailFetch.body (Some (part_json alternative_payload)) = Normal "hi".
Proof.
  destruct (body_selects_among_direct_parts
              "multipart/alternative" [("Subject", "Lunch")] None
              [Part "text/html" [] (Some "PGI-aGk8L2I-") [];
               Part "text/plain" [] (Some "aGk=") [];
               Part "text/plain" [] (Some "aGVsbG8=") []])
    as [_ Hparts].
  destruct (Hparts eq_refl) as [Hfirst _].
  apply (Hfirst [Part "text/html" [] (Some "PGI-aGk8L2I-") []]
                (Part "text/plain" [] (Some "aGk=") [])
                [Part "text/plain" [] (Some "aGVsbG8=") []] "aGk=");
    [done|by repeat constructor|done].
Defined.

(** C8, counterexample: of two listed messages the lookup of [m1] is
    refused (M = 1) and that of [m2] succeeds with a blob that is no base64.
    The answer is not the one record of [m2] but status 500. *)
Lemma broken_message_aborts_the_batch :
  fetch_failed (mailbox ["m1"; "m2"] one_broken) "token" (message_ref "m1") = true ∧
  fetch_failed (mailbox ["m1"; "m2"] one_broken) "token" (message_ref "m2") = false ∧
  result (GmailFetch.handler (mailbox ["m1"; "m2"] one_broken)
                             (fetch_request (Some "token") None))
  = Normal (Response.mk 500 (ErrorBody InvalidCharacterError)).
Proof. by vm_compute. Qed.

(** C8, witness: of three listed messages the lookup of [m2] is refused;
    the answer carries the records of [m1] and [m3]. *)
Lemma two_of_three_are_returned :
  ∃ records,
    result (GmailFetch.handler (mailbox ["m1"; "m2"; "m3"] two_of_three)
                               (fetch_request (Some "token") None))
    = Normal (Response.mk 200 (Messages records)) ∧
    length records = 2%nat ∧
    NormalizedEmail.id <$> records = [Some (JString "m1"); Some (JString "m3")].
Proof.
  destruct (hydrator_drops_refused_lookups
              (mailbox ["m1"; "m2"; "m3"] two_of_three)
              (fetch_request (Some "token") None) "token"
              (slice0 10 (message_ref <$> ["m1"; "m2"; "m3"])) 3 1)
    as (records & Hrecords & Hlength & _).
  - apply (example_listed _ _ None).
  - done.
  - by vm_compute.
  - repeat (constructor;
            [intros Hfailed;
             first [by vm_compute in Hfailed|eexists; by vm_compute]|]).
    constructor.
  - exists records. split_and!; [exact Hrecords|exact Hlength|].
    vm_compute in Hrecords. by injection Hrecords as <-.
Defined.

End FetchRuns.

(** ** Strings and the cap on a body *)

Section Strings.

Lemma length_append s t :
  String.length (s +:+ t) = (String.length s + String.length t)%nat.
Proof. induction s as [|c s IH]; simpl; [done|by rewrite IH]. Qed.

Lemma length_substring_0 n s :
  String.length (String.substring 0 n s) = (n `min` String.length s)%nat.
Proof.
  revert s. induction n as [|n IH]; intros [|c s]; simpl; try done.
  by rewrite IH.
Qed.

Lemma substring_0_short n s :
  (String.length s ≤ n)%nat → String.substring 0 n s = s.
Proof.
  revert s. induction n as [|n IH]; intros [|c s]; simpl; try done; try lia.
  intros Hn. rewrite IH; [done|lia].
Qed.

Lemma substring_0_prefix n s : ∃ rest, s = String.substring 0 n s +:+ rest.
Proof.
  revert s. induction n as [|n IH]; intros [|c s]; simpl.
  - by exists "".
  - by exists (String c s).
  - by exists "".
  - destruct (IH s) as (rest & Hrest). exists rest. exact (f_equal (String c) Hrest).
Qed.

Lemma append_empty_r s : s +:+ "" = s.
Proof. induction s as [|c s IH]; [done|]. exact (f_equal (String c) IH). Qed.

(** X1.  The cap on a returned body: a body of at most 500 characters is
    returned as it is; a longer one is cut to its first 500 characters
    followed by three dots, 503 characters in all.  No returned body is
    longer than 503 characters, and what precedes the dots is a prefix of
    the decoded body. *)
Theorem truncate_caps_a_body body :
  ((String.length body ≤ 500)%nat → GmailFetch.truncate body = body) ∧
  ((500 < String.length body)%nat →
   GmailFetch.truncate body = String.substring 0 500 body +:+ "..." ∧
   String.length (GmailFetch.truncate body) = 503%nat) ∧
  (String.length (GmailFetch.truncate body) ≤ 503)%nat ∧
  ∃ rest, body = String.substring 0 500 body +:+ rest.
Proof.
  unfold GmailFetch.truncate, longer_than.
  split_and!.
  - intros Hshort. rewrite substring_0_short by done.
    destruct (Nat.ltb_spec 500 (String.length body)); [lia|]. apply append_empty_r.
  - intros Hlong.
    destruct (Nat.ltb_spec 500 (String.length body)); [|lia].
    split; [done|]. rewrite length_append, length_substring_0.
    change (String.length "...") with 3%nat. lia.
  - rewrite length_append, length_substring_0.
    destruct (Nat.ltb 500 (String.length body));
      [change (String.length "...") with 3%nat|change (String.length "") with 0%nat]; lia.
  - apply substring_0_prefix.
Qed.

Lemma chars_text cs : chars (text cs) = cs.
Proof. apply list_ascii_of_string_of_list_ascii. Qed.

Lemma length_chars s : length (chars s) = String.length s.
Proof. induction s as [|c s IH]; simpl; [done|by rewrite IH]. Qed.

Lemma length_text cs : String.length (text cs) = length cs.
Proof. induction cs as [|c cs IH]; simpl; [done|by rewrite IH]. Qed.

Lemma map_fmap {A B : Type} (f : A → B) xs : map f xs = f <$> xs.
Proof. induction xs as [|x xs IH]; csimpl; [done|by rewrite IH]. Qed.

(** X2.  The translation from the URL-safe alphabet before [atob] is
    character by character: the length is kept, every [-] becomes [+],
    every [_] becomes [/], any other character stays where it is, and the
    result holds neither [-] nor [_]. *)
Theorem base64url_translation s :
  String.length (base64url_to_base64 s) = String.length s ∧
  ("-"%char ∉ chars (base64url_to_base64 s)) ∧
  ("_"%char ∉ chars (base64url_to_base64 s)) ∧
  (∀ i c, chars s !! i = Some c → c ≠ "-"%char → c ≠ "_"%char →
          chars (base64url_to_base64 s) !! i = Some c) ∧
  (∀ i, chars s !! i = Some "-"%char → chars (base64url_to_base64 s) !! i = Some "+"%char) ∧
  (∀ i, chars s !! i = Some "_"%char → chars (base64url_to_base64 s) !! i = Some "/"%char).
Proof.
  unfold base64url_to_base64. rewrite chars_text, length_text, length_map, length_chars.
  rewrite map_fmap.
  split_and!.
  - done.
  - intros (c & Hc & _)%list_elem_of_fmap.
    destruct (Ascii.eqb_spec c "-"); [done|].
    destruct (Ascii.eqb_spec c "_"); [done|]. done.
  - intros (c & Hc & _)%list_elem_of_fmap.
    destruct (Ascii.eqb_spec c "-"); [done|].
    destruct (Ascii.eqb_spec c "_"); [done|]. done.
  - intros i c Hi H1 H2. rewrite list_lookup_fmap, Hi. simpl.
    destruct (Ascii.eqb_spec c "-"); [done|].
    by destruct (Ascii.eqb_spec c "_").
  - intros i Hi. by rewrite list_lookup_fmap, Hi.
  - intros i Hi. by rewrite list_lookup_fmap, Hi.
Qed.

End Strings.

(** ** Every path through [gmail-fetch] *)

Section FetchPaths.
Context `{Runtime}.

Lemma hydrate_calls world token message :
  calls (GmailFetch.hydrate world token message) = option_list (lookup_of token message).
Proof.
  unfold GmailFetch.hydrate, lookup_of.
  destruct (get (Some message) "id") as [id|e]; cbn [pure mbind Exec_bind calls]; [|done].
  destruct (ToString id) as [[]|e]; cbn [pure mbind Exec_bind calls]; [|done].
  destruct (GmailFetch.getMessage world token id) as [response|];
    cbn [fetch mbind Exec_bind calls]; [|done].
  destruct (Upstream.ok response); cbn [negb]; [|done].
  destruct (Upstream.json response) as [detail|];
    cbn [await_json pure mbind Exec_bind calls]; [|done].
  by destruct (GmailFetch.normalize id detail).
Qed.

Lemma Promise_all_calls {A B : Type} (f : A → Exec B) xs :
  calls (Promise_all (f <$> xs)) = mjoin ((calls ∘ f) <$> xs).
Proof.
  induction xs as [|x xs IH]; csimpl; [done|].
  destruct (f x) as [c r], (Promise_all _) as [cs rs]. simpl in *. by rewrite IH.
Qed.

Lemma lookups_calls world token attempted :
  calls (Promise_all (GmailFetch.hydrate world token <$> attempted))
  = omap (lookup_of token) attempted.
Proof.
  rewrite Promise_all_calls.
  induction attempted as [|m ms IH]; csimpl; [done|].
  rewrite IH, hydrate_calls. by destruct (lookup_of token m).
Qed.

Lemma Promise_all_Forall2 {A B : Type} (f : A → Exec B) xs ys :
  result (Promise_all (f <$> xs)) = Normal ys →
  Forall2 (λ x y, result (f x) = Normal y) xs ys.
Proof.
  revert ys. induction xs as [|x xs IH]; csimpl; intros ys.
  - intros [= <-]. constructor.
  - destruct (f x) as [c [y|e]] eqn:Hx, (Promise_all _) as [cs [zs|e']]; simpl; try done.
    intros [= <-]. constructor; [by rewrite Hx|by apply IH].
Qed.

(** The handler past its checks, one case per outcome of the listing. *)
Lemma fetch_with_token world req token cap :
  Request.method req ≠ "OPTIONS" →
  Request.json req
    = Some {| GmailFetch.accessToken := Some token; GmailFetch.maxResults := cap |} →
  token ≠ "" →
  GmailFetch.handler world req
  = let list := GmailList token (default 10 cap) in
    match GmailFetch.listMessages world token (default 10 cap) with
    | None => Run [list] (Normal (Response.mk 500 (ErrorBody NetworkError)))
    | Some listing =>
        if Upstream.ok listing then
          match Upstream.json listing with
          | None => Run [list] (Normal (Response.mk 500 (ErrorBody SyntaxError)))
          | Some emailList =>
              match get (Some emailList) "messages" with
              | Throw e => Run [list] (Normal (Response.mk 500 (ErrorBody e)))
              | Normal messages =>
                  if truthy messages then
                    match messages with
                    | Some (JArray items) =>
                        let attempted := slice0 (default 10 cap) items in
                        Run (list :: omap (lookup_of token) attempted)
                            (Normal
                               match result (Promise_all
                                               (GmailFetch.hydrate world token <$> attempted))
                               with
                               | Normal emailDetails =>
                                   Response.mk 200
                                     (Messages (omap (λ email, email) emailDetails))
                               | Throw e => Response.mk 500 (ErrorBody e)
                               end)
                    | _ => Run [list] (Normal (Response.mk 500 (ErrorBody TypeError)))
                    end
                  else Run [list] (Normal (Response.mk 200 (Messages [])))
              end
          end
        else Run [list]
                 (Normal (passed_on listing
                            (ErrorBody (Error "Failed to fetch emails from Gmail"))))
    end.
Proof.
  intros Hmethod Hjson Htoken.
  unfold GmailFetch.handler, GmailFetch.tryBlock, Request.read.
  apply String.eqb_neq in Hmethod. rewrite Hmethod, Hjson.
  cbn [await_json pure mbind Exec_bind GmailFetch.accessToken GmailFetch.maxResults].
  rewrite (absent_false token) by done. cbn [from_option id].
  destruct (GmailFetch.listMessages _ _ _) as [listing|];
    cbn [fetch mbind Exec_bind catch_all]; [|done].
  destruct (Upstream.ok listing); cbn [negb].
  2:{ unfold passed_on.
      destruct (Upstream.text listing) as [[]|e];
        cbn [pure mbind Exec_bind Completion_bind catch_all app]; [|done].
      by destruct (new_Response _ _). }
  destruct (Upstream.json listing) as [emailList|];
    cbn [await_json pure mbind Exec_bind catch_all]; [|done].
  destruct (get (Some emailList) "messages") as [messages|e];
    cbn [await_json pure mbind Exec_bind catch_all]; [|done].
  destruct (truthy messages); cbn [negb]; [|done].
  destruct messages as [[| | | |items|]|]; try done.
  pose proof (lookups_calls world token (slice0 (default 10 cap) items)) as Hcalls.
  change (map (GmailFetch.hydrate world token) (slice0 (default 10 cap) items))
    with (GmailFetch.hydrate world token <$> slice0 (default 10 cap) items).
  destruct (Promise_all _) as [c [emailDetails|e]]; simpl in Hcalls; subst c;
    cbn [mbind Exec_bind mret Exec_ret catch_all result app]; by rewrite ?app_nil_r.
Qed.


Lemma fetch_preflight world req :
  Request.method req = "OPTIONS" →
  GmailFetch.handler world req = Run [] (Normal (Response.mk 200 Empty)).
Proof. intros Hmethod. unfold GmailFetch.handler. by rewrite Hmethod. Qed.

Lemma fetch_unreadable world req :
  Request.method req ≠ "OPTIONS" → Request.json req = None →
  GmailFetch.handler world req
  = Run [] (Normal (Response.mk 500 (ErrorBody (Request.refusal req)))).
Proof.
  intros Hmethod Hjson. unfold GmailFetch.handler, GmailFetch.tryBlock, Request.read.
  apply String.eqb_neq in Hmethod. by rewrite Hmethod, Hjson.
Qed.

Lemma fetch_without_token world req request :
  Request.method req ≠ "OPTIONS" → Request.json req = Some request →
  absent (GmailFetch.accessToken request) = true →
  GmailFetch.handler world req
  = Run [] (Normal (Response.mk 400 (ErrorBody (Error "Access token is required")))).
Proof.
  intros Hmethod Hjson Habsent. unfold GmailFetch.handler, GmailFetch.tryBlock, Request.read.
  apply String.eqb_neq in Hmethod. rewrite Hmethod, Hjson.
  cbn [await_json pure mbind Exec_bind]. by rewrite Habsent.
Qed.

Lemma fetch_request_cases (req : Request.t GmailFetch.GmailRequest) :
  Request.method req = "OPTIONS" ∨
  (Request.method req ≠ "OPTIONS" ∧
   (Request.json req = None ∨
    (∃ request, Request.json req = Some request ∧
                absent (GmailFetch.accessToken request) = true) ∨
    (∃ token cap,
       Request.json req
         = Some {| GmailFetch.accessToken := Some token; GmailFetch.maxResults := cap |} ∧
       token ≠ ""))).
Proof.
  destruct (decide (Request.method req = "OPTIONS")) as [|Hmethod]; [by left|right].
  split; [done|].
  destruct (Request.json req) as [[[token|] cap]|]; [| |by left].
  - destruct (String.eqb_spec token "") as [->|Htoken].
    + right; left. by eexists.
    + right; right. by exists token, cap.
  - right; left. by eexists.
Qed.

Lemma omap_length_le {A B : Type} (f : A → option B) xs :
  (length (omap f xs) ≤ length xs)%nat.
Proof. induction xs as [|x xs IH]; csimpl; [done|]. destruct (f x); simpl; lia. Qed.

Lemma slice0_nil {A : Type} n : slice0 n (@nil A) = [].
Proof. unfold slice0. destruct (n <? 0); apply take_nil. Qed.

Lemma slice0_length {A : Type} n (xs : list A) :
  0 ≤ n → (length (slice0 n xs) ≤ Z.to_nat n)%nat.
Proof.
  intros Hn. unfold slice0. destruct (Z.ltb_spec n 0); [lia|].
  rewrite length_take. lia.
Qed.

Lemma slice0_sublist {A : Type} n (xs : list A) : slice0 n xs `sublist_of` xs.
Proof. unfold slice0. destruct (n <? 0); apply sublist_take. Qed.

Lemma ok_status response :
  Upstream.ok response = false → ¬ (200 ≤ Upstream.status response ≤ 299).
Proof. unfold Upstream.ok. intros Hok [??]. 
  destruct (Z.leb_spec 200 (Upstream.status response)); [|lia].
  destruct (Z.leb_spec (Upstream.status response) 299); [done|lia].
Qed.

Lemma passed_on_refusal refusal error :
  Upstream.ok refusal = false →
  ∃ e, Response.body (passed_on refusal (ErrorBody error)) = ErrorBody e ∧
       ¬ (200 ≤ Response.status (passed_on refusal (ErrorBody error)) ≤ 299).
Proof.
  intros Hok%ok_status. unfold passed_on, Upstream.text, new_Response.
  destruct (Upstream.readable refusal); cbn [mbind Completion_bind];
    [|eexists; split; [done|cbn; lia]].
  destruct (_ || _); [eexists; split; [done|cbn; lia]|].
  destruct (_ || _); [eexists; split; [done|cbn; lia]|].
  by eexists.
Qed.

Lemma passed_on_readable refusal body :
  Upstream.readable refusal = true →
  (300 ≤ Upstream.status refusal ≤ 599 → Upstream.status refusal ≠ 304 →
   passed_on refusal body = Response.mk (Upstream.status refusal) body) ∧
  (Upstream.status refusal = 304 →
   passed_on refusal body = Response.mk 500 (ErrorBody TypeError)) ∧
  (Upstream.status refusal < 200 ∨ 599 < Upstream.status refusal →
   passed_on refusal body = Response.mk 500 (ErrorBody RangeError)).
Proof.
  intros Hreadable. unfold passed_on, Upstream.text, new_Response. rewrite Hreadable.
  cbn [mbind Completion_bind]. split_and!.
  - intros [Hlow Hhigh] Hnot.
    destruct (Z.ltb_spec (Upstream.status refusal) 200); [lia|].
    destruct (Z.ltb_spec 599 (Upstream.status refusal)); [lia|]. cbn [orb].
    destruct (Z.eqb_spec (Upstream.status refusal) 204); [lia|].
    destruct (Z.eqb_spec (Upstream.status refusal) 205); [lia|].
    by destruct (Z.eqb_spec (Upstream.status refusal) 304).
  - by intros ->.
  - intros Hout.
    destruct (Z.ltb_spec (Upstream.status refusal) 200); [done|].
    by destruct (Z.ltb_spec 599 (Upstream.status refusal)); [|lia].
Qed.

Lemma passed_on_unreadable refusal body :
  Upstream.readable refusal = false →
  passed_on refusal body = Response.mk 500 (ErrorBody NetworkError).
Proof. intros Hreadable. unfold passed_on, Upstream.text. by rewrite Hreadable. Qed.

(** X3.  A fetch request (no pre-flight) whose body has no access token,
    or an empty one, is answered 400 'Access token is required' and the
    mailbox service is never called, whatever [maxResults] says. *)
Theorem fetch_requires_a_token world req request :
  Request.method req ≠ "OPTIONS" →
  Request.json req = Some request →
  GmailFetch.accessToken request = None ∨ GmailFetch.accessToken request = Some "" →
  GmailFetch.handler world req
  = Run [] (Normal (Response.mk 400 (ErrorBody (Error "Access token is required")))).
Proof.
  intros Hmethod Hjson Htoken. apply (fetch_without_token _ _ request); [done..|].
  by destruct Htoken as [-> | ->].
Qed.

(** X4.  When the listing is refused with a status a response can carry
    (300 to 599, but not 304) and the refusal can be read, the handler
    passes that status on with the error 'Failed to fetch emails from
    Gmail'.  A refusal with 304, with a status below 200 or above 599, or
    one that cannot be read, and a mailbox service out of reach, are
    answered 500.  In every case the listing is the only call: no message
    is looked up. *)
Theorem fetch_listing_failure_is_passed_on world req token cap :
  Request.method req ≠ "OPTIONS" →
  Request.json req
    = Some {| GmailFetch.accessToken := Some token; GmailFetch.maxResults := cap |} →
  token ≠ "" →
  (∀ listing,
     GmailFetch.listMessages world token (default 10 cap) = Some listing →
     Upstream.ok listing = false →
     calls (GmailFetch.handler world req) = [GmailList token (default 10 cap)] ∧
     (Upstream.readable listing = true →
      (300 ≤ Upstream.status listing ≤ 599 → Upstream.status listing ≠ 304 →
       result (GmailFetch.handler world req)
       = Normal (Response.mk (Upstream.status listing)
                   (ErrorBody (Error "Failed to fetch emails from Gmail")))) ∧
      (Upstream.status listing = 304 →
       result (GmailFetch.handler world req)
       = Normal (Response.mk 500 (ErrorBody TypeError))) ∧
      (Upstream.status listing < 200 ∨ 599 < Upstream.status listing →
       result (GmailFetch.handler world req)
       = Normal (Response.mk 500 (ErrorBody RangeError)))) ∧
     (Upstream.readable listing = false →
      result (GmailFetch.handler world req)
      = Normal (Response.mk 500 (ErrorBody NetworkError)))) ∧
  (GmailFetch.listMessages world token (default 10 cap) = None →
   GmailFetch.handler world req
   = Run [GmailList token (default 10 cap)]
         (Normal (Response.mk 500 (ErrorBody NetworkError)))).
Proof.
  intros Hmethod Hjson Htoken.
  rewrite (fetch_with_token _ _ _ _ Hmethod Hjson Htoken). cbn zeta. split.
  - intros listing -> Hok. rewrite Hok. cbn [calls result]. split_and!; [done| |].
    + intros Hreadable.
      destruct (passed_on_readable
                  listing (ErrorBody (Error "Failed to fetch emails from Gmail"))
                  Hreadable) as (Hpass & Hnone & Hrange).
      split_and!.
      * intros Hin Hnot. by rewrite Hpass.
      * intros H304. by rewrite Hnone.
      * intros Hout. by rewrite Hrange.
    + intros Hreadable. by rewrite passed_on_unreadable.
  - by intros ->.
Qed.

(** X5.  A listing without messages (the [messages] member is missing,
    [null] or otherwise falsy, or is the empty array) is answered 200 with
    the empty list, and no message is looked up. *)
Theorem fetch_empty_listing world req token cap listing emailList messages :
  Request.method req ≠ "OPTIONS" →
  Request.json req
    = Some {| GmailFetch.accessToken := Some token; GmailFetch.maxResults := cap |} →
  token ≠ "" →
  GmailFetch.listMessages world token (default 10 cap) = Some listing →
  Upstream.ok listing = true →
  Upstream.json listing = Some emailList →
  get (Some emailList) "messages" = Normal messages →
  truthy messages = false ∨ messages = Some (JArray []) →
  GmailFetch.handler world req
  = Run [GmailList token (default 10 cap)] (Normal (Response.mk 200 (Messages []))).
Proof.
  intros Hmethod Hjson Htoken Hlist Hok Hdata Hmessages Hempty.
  rewrite (fetch_with_token _ _ _ _ Hmethod Hjson Htoken). cbn zeta.
  rewrite Hlist, Hok, Hdata, Hmessages.
  destruct Hempty as [-> | ->]; [done|].
  cbn [truthy]. by rewrite slice0_nil.
Qed.

(** X6.  The calls of a request whose listing answered: the listing first,
    then one lookup for each attempted message that has an [id] to read and
    to put into the address, in listing order and with the caller's token.
    They are made whether or not the request ends in an error.  With a
    non-negative cap at most that many messages are attempted; and when no
    attempted entry is [null] and every [id] can be converted to a string,
    every attempted message is looked up. *)
Theorem fetch_lookups_follow_the_listing world req token attempted :
  listed world req token attempted →
  ∃ cap,
    Request.json req
      = Some {| GmailFetch.accessToken := Some token; GmailFetch.maxResults := cap |} ∧
    calls (GmailFetch.handler world req)
      = GmailList token (default 10 cap) :: omap (lookup_of token) attempted ∧
    (length (calls (GmailFetch.handler world req)) ≤ 1 + length attempted)%nat ∧
    (0 ≤ default 10 cap → Z.of_nat (length attempted) ≤ default 10 cap) ∧
    (Forall (λ m, m ≠ JNull ∧ ToString (opt_get (Some m) "id") = Normal tt) attempted →
     omap (lookup_of token) attempted
       = (λ m, GmailGet token (opt_get (Some m) "id")) <$> attempted).
Proof.
  intros (cap & listing & emailList & items & Hmethod & Hjson & Htoken & Hlist & Hok
          & Hdata & Hmessages & ->).
  exists cap. rewrite (fetch_with_token _ _ _ _ Hmethod Hjson Htoken). cbn zeta.
  rewrite Hlist, Hok, Hdata, Hmessages. cbn [truthy calls].
  split_and!; [done|done| | |].
  - cbn [length]. pose proof (omap_length_le (lookup_of token) (slice0 (default 10 cap) items)).
    lia.
  - intros Hcap. pose proof (slice0_length _ items Hcap). lia.
  - induction 1 as [|m ms [Hm Hid] _ IH]; csimpl; [done|].
    unfold lookup_of at 1. rewrite get_not_null by done. by rewrite Hid, IH.
Qed.

Lemma normalize_record id detail record :
  GmailFetch.normalize id detail = Normal record →
  NormalizedEmail.id record = id ∧
  ∃ body, NormalizedEmail.body record = GmailFetch.truncate body.
Proof.
  unfold GmailFetch.normalize.
  destruct (get (Some detail) "payload") as [payload|]; cbn [mbind Completion_bind]; [|done].
  destruct (GmailFetch.header _ "Subject"); cbn [mbind Completion_bind]; [|done].
  destruct (GmailFetch.header _ "From"); cbn [mbind Completion_bind]; [|done].
  destruct (GmailFetch.header _ "Date"); cbn [mbind Completion_bind]; [|done].
  destruct (GmailFetch.body payload) as [body|]; cbn [mbind Completion_bind]; [|done].
  intros [= <-]. split; [done|by exists body].
Qed.

Lemma hydrate_record world token message record :
  result (GmailFetch.hydrate world token message) = Normal (Some record) →
  NormalizedEmail.id record = opt_get (Some message) "id" ∧
  ∃ body, NormalizedEmail.body record = GmailFetch.truncate body.
Proof.
  unfold GmailFetch.hydrate.
  destruct message as [| | | | |]; cbn [get pure mbind Exec_bind result]; try done.
  all: destruct (ToString _) as [[]|e]; cbn [pure mbind Exec_bind result]; [|done].
  all: destruct (GmailFetch.getMessage world token _) as [response|];
    cbn [fetch mbind Exec_bind result]; [|done].
  all: destruct (Upstream.ok response); cbn [negb]; [|done].
  all: destruct (Upstream.json response) as [detail|];
    cbn [await_json pure mbind Exec_bind result]; [|done].
  all: destruct (GmailFetch.normalize _ detail) as [r|] eqn:Hnormalize;
    cbn [await_json pure mbind Exec_bind mret Exec_ret result]; [|done].
  all: intros [= <-]; by apply normalize_record in Hnormalize.
Qed.

Lemma records_of_lookups world token attempted emailDetails :
  result (Promise_all (GmailFetch.hydrate world token <$> attempted)) = Normal emailDetails →
  Forall2 (λ m record, result (GmailFetch.hydrate world token m) = Normal (Some record))
          (filter (λ m, fetch_failed world token m = false) attempted)
          (omap (λ email, email) emailDetails).
Proof. intros Hall%Promise_all_Forall2. by apply valid_emails. Qed.

(** X7.  The records of a successful answer carry the [id] of their listing
    entries, not anything the lookup replied: their ids are those of the
    attempted messages whose lookup was not refused, in listing order. *)
Theorem fetch_records_keep_listing_ids world req token attempted status records :
  listed world req token attempted →
  result (GmailFetch.handler world req) = Normal (Response.mk status (Messages records)) →
  NormalizedEmail.id <$> records
    = (λ m, opt_get (Some m) "id")
        <$> filter (λ m, fetch_failed world token m = false) attempted ∧
  NormalizedEmail.id <$> records `sublist_of` (λ m, opt_get (Some m) "id") <$> attempted ∧
  (length records ≤ length attempted)%nat.
Proof.
  intros Hlisted. rewrite (handler_listed _ _ _ _ Hlisted).
  destruct (result (Promise_all _)) as [emailDetails|e] eqn:Hall; [|done].
  intros [= <- <-]. apply records_of_lookups in Hall.
  assert (NormalizedEmail.id <$> omap (λ email, email) emailDetails
          = (λ m, opt_get (Some m) "id")
              <$> filter (λ m, fetch_failed world token m = false) attempted) as Hids.
  { induction Hall as [|m r ms rs Hm _ IH]; csimpl; [done|].
    apply hydrate_record in Hm as [-> _]. by rewrite IH. }
  split_and!; [done| |].
  - rewrite Hids. apply fmap_sublist, sublist_filter.
  - apply (f_equal length) in Hids. rewrite !length_fmap in Hids. rewrite Hids.
    apply length_filter.
Qed.

Lemma truncate_length body : (String.length (GmailFetch.truncate body) ≤ 503)%nat.
Proof.
  unfold GmailFetch.truncate, longer_than. rewrite length_append, length_substring_0.
  destruct (Nat.ltb 500 (String.length body));
    [change (String.length "...") with 3%nat|change (String.length "") with 0%nat]; lia.
Qed.

(** X8.  Whatever the request and the mailbox, an answer that carries
    records has status 200 and no record in it has a body longer than 503
    characters. *)
Theorem fetch_bodies_are_capped world req status records :
  result (GmailFetch.handler world req) = Normal (Response.mk status (Messages records)) →
  status = 200 ∧
  Forall (λ record, (String.length (NormalizedEmail.body record) ≤ 503)%nat) records.
Proof.
  destruct (fetch_request_cases req)
    as [Hmethod|[Hmethod [Hjson|[(request & Hjson & Habsent)|(token & cap & Hjson & Htoken)]]]].
  - by rewrite fetch_preflight.
  - by rewrite fetch_unreadable.
  - by rewrite (fetch_without_token _ _ request).
  - rewrite (fetch_with_token _ _ _ _ Hmethod Hjson Htoken). cbn zeta.
    destruct (GmailFetch.listMessages _ _ _) as [listing|]; [|done].
    destruct (Upstream.ok listing) eqn:Hok.
    2:{ cbn [result]. intros [= Heq].
        destruct (passed_on_refusal
                    listing (Error "Failed to fetch emails from Gmail") Hok)
          as (e & Hbody & _).
        by rewrite Heq in Hbody. }
    destruct (Upstream.json listing) as [emailList|]; [|done].
    destruct (get (Some emailList) "messages") as [messages|]; [|done].
    destruct (truthy messages); [|by intros [= <- <-]].
    destruct messages as [[| | | |items|]|]; try done. cbn [result].
    destruct (result (Promise_all _)) as [emailDetails|e] eqn:Hall; [|done].
    intros [= <- <-]. split; [done|].
    apply records_of_lookups in Hall.
    induction Hall as [|m r ms rs Hm _ IH]; constructor; [|done].
    apply hydrate_record in Hm as (_ & body & ->).
    apply truncate_length.
Qed.

(** X9.  [gmail-fetch] answers every request: the handler never throws.
    The empty body answers the pre-flight only; an error body never comes
    with a status in the 200s; a list of records always comes with 200; and
    the handler never answers with prioritized emails. *)
Theorem fetch_always_answers world req :
  ∃ response,
    result (GmailFetch.handler world req) = Normal response ∧
    match Response.body response with
    | Empty => Request.method req = "OPTIONS" ∧ Response.status response = 200
    | ErrorBody _ =>
        Request.method req ≠ "OPTIONS" ∧ ¬ (200 ≤ Response.status response ≤ 299)
    | Messages _ => Request.method req ≠ "OPTIONS" ∧ Response.status response = 200
    | PrioritizedEmails _ => False
    end.
Proof.
  destruct (fetch_request_cases req)
    as [Hmethod|[Hmethod [Hjson|[(request & Hjson & Habsent)|(token & cap & Hjson & Htoken)]]]].
  - rewrite fetch_preflight by done. by eexists.
  - rewrite fetch_unreadable by done. eexists. split; [done|]. simpl. split; [done|lia].
  - rewrite (fetch_without_token _ _ request) by done.
    eexists. split; [done|]. simpl. split; [done|lia].
  - rewrite (fetch_with_token _ _ _ _ Hmethod Hjson Htoken). cbn zeta.
    destruct (GmailFetch.listMessages _ _ _) as [listing|];
      [|eexists; split; [done|]; simpl; split; [done|lia]].
    destruct (Upstream.ok listing) eqn:Hok.
    2:{ destruct (passed_on_refusal
                    listing (Error "Failed to fetch emails from Gmail") Hok)
          as (e & Hbody & Hstatus).
        eexists. split; [done|]. by rewrite Hbody. }
    destruct (Upstream.json listing) as [emailList|];
      [|eexists; split; [done|]; simpl; split; [done|lia]].
    destruct (get (Some emailList) "messages") as [messages|];
      [|eexists; split; [done|]; simpl; split; [done|lia]].
    destruct (truthy messages); [|by eexists].
    destruct messages as [[| | | |items|]|];
      try (eexists; split; [done|]; simpl; split; [done|lia]).
    cbn [result]. destruct (result (Promise_all _)) as [emailDetails|e].
    + by eexists.
    + eexists; split; [done|]; simpl; split; [done|lia].
Qed.


Lemma fetch_bounds world req token cap :
  Request.method req ≠ "OPTIONS" →
  Request.json req
    = Some {| GmailFetch.accessToken := Some token; GmailFetch.maxResults := cap |} →
  token ≠ "" → 0 ≤ default 10 cap →
  head (calls (GmailFetch.handler world req)) = Some (GmailList token (default 10 cap)) ∧
  Z.of_nat (length (calls (GmailFetch.handler world req))) ≤ 1 + default 10 cap ∧
  ∀ status records,
    result (GmailFetch.handler world req) = Normal (Response.mk status (Messages records)) →
    Z.of_nat (length records) ≤ default 10 cap.
Proof.
  intros Hmethod Hjson Htoken Hcap.
  rewrite (fetch_with_token _ _ _ _ Hmethod Hjson Htoken). cbn zeta.
  destruct (GmailFetch.listMessages _ _ _) as [listing|];
    [|split_and!; [done|simpl; lia|done]].
  destruct (Upstream.ok listing) eqn:Hok.
  2:{ split_and!; [done|simpl; lia|]. intros status records. cbn [result]. intros [= Heq].
      destruct (passed_on_refusal
                  listing (Error "Failed to fetch emails from Gmail") Hok)
        as (e & Hbody & _).
      by rewrite Heq in Hbody. }
  destruct (Upstream.json listing) as [emailList|]; [|split_and!; [done|simpl; lia|done]].
  destruct (get (Some emailList) "messages") as [messages|];
    [|split_and!; [done|simpl; lia|done]].
  destruct (truthy messages);
    [|split_and!; [done|simpl; lia|intros ?? [= <- <-]; simpl; lia]].
  destruct messages as [[| | | |items|]|]; try (split_and!; [done|simpl; lia|done]).
  pose proof (slice0_length _ items Hcap) as Hattempted.
  split_and!; [done| |].
  - cbn [calls length].
    pose proof (omap_length_le (lookup_of token) (slice0 (default 10 cap) items)). lia.
  - intros status records. cbn [result].
    destruct (result (Promise_all _)) as [emailDetails|e] eqn:Hall; [|done].
    intros [= <- <-]. apply Promise_all_Forall2, Forall2_length in Hall.
    pose proof (omap_length_le (λ email : option NormalizedEmail.t, email) emailDetails).
    lia.
Qed.

End FetchPaths.

(** ** The record of one message *)

Section Normalize.
Context `{Runtime}.

Lemma header_of_headers headers name :
  GmailFetch.header (Some (JArray (header_json <$> headers))) name
  = Normal (JString <$> header_value name headers).
Proof.
  unfold GmailFetch.header, header_value. cbn [find].
  induction headers as [|[n v] headers IH]; csimpl; [done|].
  cbn [strict_eq_string]. destruct (String.eqb n name); [done|].
  cbn [mbind Completion_bind] in IH |- *. exact IH.
Qed.

Lemma or_else_string value fallback :
  or_else (JString <$> value) (JString fallback) = JString (shown fallback value).
Proof.
  destruct value as [v|]; [|done]. cbn. by destruct (String.eqb v "").
Qed.

(** X10.  The record of a message whose lookup replied a payload with
    headers: subject, sender and date are the values of the first header
    named exactly [Subject], [From] and [Date]; a missing header or one
    with an empty value gives 'No Subject', 'Unknown Sender' and the
    empty string.  The snippet is the reply's, the id the one passed in,
    and the body the decoded body under the cap. *)
Theorem normalize_reads_the_headers id snippet mimeType headers blob parts :
  GmailFetch.normalize id (message_json snippet (Part mimeType headers blob parts))
  = body ← GmailFetch.body (Some (part_json (Part mimeType headers blob parts)));
    Normal
      {| NormalizedEmail.id := id;
         NormalizedEmail.subject := JString (shown "No Subject" (header_value "Subject" headers));
         NormalizedEmail.from := JString (shown "Unknown Sender" (header_value "From" headers));
         NormalizedEmail.date := JString (shown "" (header_value "Date" headers));
         NormalizedEmail.snippet := JString snippet;
         NormalizedEmail.body := GmailFetch.truncate body |}.
Proof.
  unfold GmailFetch.normalize, message_json.
  change (get _ "payload") with (Normal (Some (part_json (Part mimeType headers blob parts)))).
  cbn [mbind Completion_bind].
  change (or (opt_get (Some (part_json (Part mimeType headers blob parts))) "headers")
             (Some (JArray [])))
    with (Some (JArray (header_json <$> headers))).
  rewrite !header_of_headers. cbn [mbind Completion_bind].
  rewrite !or_else_string.
  change (opt_get _ "snippet") with (JString <$> Some snippet).
  rewrite or_else_string.
  replace (shown "" (Some snippet)) with snippet; [done|].
  cbn. by destruct (String.eqb_spec snippet "").
Qed.

(** X11.  A lookup reply without a payload (the member is missing, [null]
    or anything but an object) still gives a record: the three defaults for
    subject, sender and date, the reply's snippet, and an empty body. *)
Theorem normalize_without_payload id detail payload :
  get (Some detail) "payload" = Normal payload →
  (∀ props, payload ≠ Some (JObject props)) →
  GmailFetch.normalize id detail
  = Normal
      {| NormalizedEmail.id := id;
         NormalizedEmail.subject := JString "No Subject";
         NormalizedEmail.from := JString "Unknown Sender";
         NormalizedEmail.date := JString "";
         NormalizedEmail.snippet := or_else (opt_get (Some detail) "snippet") (JString "");
         NormalizedEmail.body := "" |}.
Proof.
  intros Hpayload Hobject. unfold GmailFetch.normalize. rewrite Hpayload.
  cbn [mbind Completion_bind].
  destruct payload as [[| | | | |props]|]; try done.
  by destruct (Hobject props).
Qed.

End Normalize.

(** ** Every path through [gmail-analyze] *)

Section AnalyzePaths.
Context `{Runtime}.

Lemma analyze_preflight world req :
  Request.method req = "OPTIONS" →
  GmailAnalyze.handler world req = Run [] (Normal (Response.mk 200 Empty)).
Proof. intros Hmethod. unfold GmailAnalyze.handler. by rewrite Hmethod. Qed.

Lemma analyze_unreadable world req :
  Request.method req ≠ "OPTIONS" → Request.json req = None →
  GmailAnalyze.handler world req
  = Run [] (Normal (Response.mk 500 (ErrorBody (Request.refusal req)))).
Proof.
  intros Hmethod Hjson. unfold GmailAnalyze.handler, GmailAnalyze.tryBlock, Request.read.
  apply String.eqb_neq in Hmethod. by rewrite Hmethod, Hjson.
Qed.

Lemma analyze_without_key world req body :
  Request.method req ≠ "OPTIONS" → Request.json req = Some body →
  absent (GmailAnalyze.GEMINI_API_KEY world) = true →
  GmailAnalyze.handler world req
  = Run [] (Normal (Response.mk 500 (ErrorBody (Error "Gemini API key not configured")))).
Proof.
  intros Hmethod Hjson Hkey. unfold GmailAnalyze.handler, GmailAnalyze.tryBlock, Request.read.
  apply String.eqb_neq in Hmethod. rewrite Hmethod, Hjson.
  cbn [await_json pure mbind Exec_bind]. by rewrite Hkey.
Qed.

Lemma analyze_incomplete world req body :
  Request.method req ≠ "OPTIONS" → Request.json req = Some body →
  absent (GmailAnalyze.GEMINI_API_KEY world) = false →
  incomplete body = true →
  GmailAnalyze.handler world req
  = Run [] (Normal (Response.mk 400
                      (ErrorBody (Error "Access token and emails are required")))).
Proof.
  intros Hmethod Hjson Hkey Hbody. unfold GmailAnalyze.handler, GmailAnalyze.tryBlock, Request.read.
  apply String.eqb_neq in Hmethod. rewrite Hmethod, Hjson.
  cbn [await_json pure mbind Exec_bind]. rewrite Hkey.
  unfold incomplete in Hbody. by rewrite Hbody.
Qed.

(** The handler past its checks, one case per outcome of the call. *)
Lemma analyze_asked world req key emails response :
  asked world req key emails response →
  GmailAnalyze.handler world req
  = let call := GeminiGenerate key (GmailAnalyze.emailsForAnalysis emails) in
    match response with
    | None => Run [call] (Normal (Response.mk 500 (ErrorBody NetworkError)))
    | Some geminiResponse =>
        if Upstream.ok geminiResponse then
          match Upstream.json geminiResponse with
          | None => Run [call] (Normal (Response.mk 500 (ErrorBody SyntaxError)))
          | Some geminiData =>
              match GmailAnalyze.responseText geminiData with
              | Throw e => Run [call] (Normal (Response.mk 500 (ErrorBody e)))
              | Normal responseText =>
                  if truthy responseText then
                    Run [call]
                        (Normal
                           match (results ← GmailAnalyze.analysisResults responseText;
                                  merged ← GmailAnalyze.prioritizedEmails results emails;
                                  Array_sort GmailAnalyze.compare merged) with
                           | Normal sorted => Response.mk 200 (PrioritizedEmails sorted)
                           | Throw e => Response.mk 500 (ErrorBody e)
                           end)
                  else Run [call]
                           (Normal (Response.mk 500
                                      (ErrorBody (Error "No response from Gemini"))))
              end
          end
        else Run [call]
                 (Normal (passed_on geminiResponse
                            (ErrorBody (Error "Failed to analyze emails with Gemini"))))
    end.
Proof.
  intros (token & Hmethod & Hjson & Htoken & Hemails & Hkey & Hkey' & Hresponse).
  unfold GmailAnalyze.handler, GmailAnalyze.tryBlock, Request.read.
  apply String.eqb_neq in Hmethod. rewrite Hmethod, Hjson, Hkey.
  cbn [await_json pure mbind Exec_bind GmailAnalyze.accessToken GmailAnalyze.emails].
  rewrite !absent_false by done. cbn [orb from_option id].
  destruct emails as [|email emails]; [done|]. cbn [length Nat.eqb].
  rewrite Hresponse.
  destruct response as [geminiResponse|]; cbn [fetch mbind Exec_bind catch_all]; [|done].
  destruct (Upstream.ok geminiResponse); cbn [negb].
  2:{ unfold passed_on.
      destruct (Upstream.text geminiResponse) as [[]|e];
        cbn [pure mbind Exec_bind Completion_bind catch_all app]; [|done].
      by destruct (new_Response _ _). }
  destruct (Upstream.json geminiResponse) as [geminiData|];
    cbn [await_json pure mbind Exec_bind catch_all]; [|done].
  destruct (GmailAnalyze.responseText geminiData) as [responseText|];
    cbn [pure mbind Exec_bind catch_all]; [|done].
  destruct (truthy responseText); cbn [negb pure mbind Exec_bind catch_all]; [|done].
  destruct (GmailAnalyze.analysisResults responseText) as [results|];
    cbn [pure mbind Exec_bind Completion_bind catch_all]; [|done].
  destruct (GmailAnalyze.prioritizedEmails results (email :: emails)) as [merged|];
    cbn [pure mbind Exec_bind Completion_bind catch_all]; [|done].
  by destruct (Array_sort _ _).
Qed.

Lemma analyze_request_cases world (req : Request.t GmailAnalyze.AnalyzeRequest) :
  Request.method req = "OPTIONS" ∨
  (Request.method req ≠ "OPTIONS" ∧
   (Request.json req = None ∨
    (∃ body, Request.json req = Some body ∧
             (absent (GmailAnalyze.GEMINI_API_KEY world) = true ∨
              (absent (GmailAnalyze.GEMINI_API_KEY world) = false ∧
               incomplete body = true))) ∨
    (∃ key emails response, asked world req key emails response))).
Proof.
  destruct (decide (Request.method req = "OPTIONS")) as [|Hmethod]; [by left|right].
  split; [done|].
  destruct (Request.json req) as [body|] eqn:Hjson; [|by left]. right.
  destruct (absent (GmailAnalyze.GEMINI_API_KEY world)) eqn:Hkey; [left; eauto|].
  destruct (incomplete body) eqn:Hbody; [left; eauto|]. right.
  destruct (GmailAnalyze.GEMINI_API_KEY world) as [key|] eqn:Hkey'; [|done].
  cbn in Hkey. apply String.eqb_neq in Hkey.
  unfold incomplete in Hbody. apply orb_false_iff in Hbody as [Htoken Hemails].
  destruct body as [[token|] [emails|]]; cbn in Htoken, Hemails; try done.
  apply String.eqb_neq in Htoken.
  exists key, emails, (GmailAnalyze.generateContent world key
                         (GmailAnalyze.emailsForAnalysis emails)), token.
  split_and!; try done. by destruct emails.
Qed.

(** X12.  [gmail-analyze] answers every request: the handler never throws.
    The empty body answers the pre-flight only; an error body never comes
    with a status in the 200s; prioritized emails always come with 200; and
    the handler never answers with a list of fetched records. *)
Theorem analyze_always_answers world req :
  ∃ response,
    result (GmailAnalyze.handler world req) = Normal response ∧
    match Response.body response with
    | Empty => Request.method req = "OPTIONS" ∧ Response.status response = 200
    | ErrorBody _ =>
        Request.method req ≠ "OPTIONS" ∧ ¬ (200 ≤ Response.status response ≤ 299)
    | PrioritizedEmails _ =>
        Request.method req ≠ "OPTIONS" ∧ Response.status response = 200
    | Messages _ => False
    end.
Proof.
  destruct (analyze_request_cases world req)
    as [Hmethod|[Hmethod [Hjson|[(body & Hjson & [Hkey|[Hkey Hbody]])
                                |(key & emails & response & Hasked)]]]].
  - rewrite analyze_preflight by done. by eexists.
  - rewrite analyze_unreadable by done. eexists. split; [done|]. simpl. split; [done|lia].
  - rewrite (analyze_without_key _ _ body) by done.
    eexists. split; [done|]. simpl. split; [done|lia].
  - rewrite (analyze_incomplete _ _ body) by done.
    eexists. split; [done|]. simpl. split; [done|lia].
  - rewrite (analyze_asked _ _ _ _ _ Hasked). cbn zeta.
    destruct response as [geminiResponse|];
      [|eexists; split; [done|]; simpl; split; [done|lia]].
    destruct (Upstream.ok geminiResponse) eqn:Hok.
    2:{ destruct (passed_on_refusal
                    geminiResponse (Error "Failed to analyze emails with Gemini") Hok)
          as (e & Hbody & Hstatus).
        eexists. split; [done|]. by rewrite Hbody. }
    destruct (Upstream.json geminiResponse) as [geminiData|];
      [|eexists; split; [done|]; simpl; split; [done|lia]].
    destruct (GmailAnalyze.responseText geminiData) as [responseText|];
      [|eexists; split; [done|]; simpl; split; [done|lia]].
    destruct (truthy responseText);
      [|eexists; split; [done|]; simpl; split; [done|lia]].
    cbn [result].
    destruct (_ ≫= _) as [merged|e].
    + by eexists.
    + eexists; split; [done|]; simpl; split; [done|lia].
Qed.

Lemma analyze_asked_calls world req key emails response :
  asked world req key emails response →
  calls (GmailAnalyze.handler world req)
  = [GeminiGenerate key (GmailAnalyze.emailsForAnalysis emails)].
Proof.
  intros Hasked. rewrite (analyze_asked _ _ _ _ _ Hasked). cbn zeta.
  destruct response as [geminiResponse|]; [|done].
  destruct (Upstream.ok geminiResponse); [|done].
  destruct (Upstream.json geminiResponse) as [geminiData|]; [|done].
  destruct (GmailAnalyze.responseText geminiData) as [responseText|]; [|done].
  by destruct (truthy responseText).
Qed.

Lemma emailsForAnalysis_length emails :
  length (GmailAnalyze.emailsForAnalysis emails) = (length emails `min` 100)%nat.
Proof.
  unfold GmailAnalyze.emailsForAnalysis, slice0. cbn [Z.ltb Z.compare].
  rewrite length_map, length_take. change (Z.to_nat 100) with 100%nat. lia.
Qed.

(** X13.  The classification service is called at most once per request,
    and only for a request that is no pre-flight, with a configured key, a
    token and a non-empty batch.  The call carries the configured key and a
    prompt of between 1 and 100 entries; and every such request does make
    the call, whatever the service replies. *)
Theorem analyze_calls_the_service_at_most_once world req :
  (calls (GmailAnalyze.handler world req) = [] ∨
   ∃ key emails response,
     asked world req key emails response ∧
     calls (GmailAnalyze.handler world req)
       = [GeminiGenerate key (GmailAnalyze.emailsForAnalysis emails)] ∧
     (0 < length (GmailAnalyze.emailsForAnalysis emails) ≤ 100)%nat) ∧
  (∀ key emails response,
     asked world req key emails response →
     calls (GmailAnalyze.handler world req)
       = [GeminiGenerate key (GmailAnalyze.emailsForAnalysis emails)]).
Proof.
  split; [|intros key emails response; apply analyze_asked_calls].
  destruct (analyze_request_cases world req)
    as [Hmethod|[Hmethod [Hjson|[(body & Hjson & [Hkey|[Hkey Hbody]])
                                |(key & emails & response & Hasked)]]]].
  - left. by rewrite analyze_preflight.
  - left. by rewrite analyze_unreadable.
  - left. by rewrite (analyze_without_key _ _ body).
  - left. by rewrite (analyze_incomplete _ _ body).
  - right. exists key, emails, response.
    split; [done|]. split; [by apply (analyze_asked_calls _ _ _ _ response)|].
    rewrite emailsForAnalysis_length.
    destruct Hasked as (token & _ & _ & _ & Hemails & _). destruct emails; [done|simpl; lia].
Qed.

(** X14.  When the classification service refuses the call with a status a
    response can carry (300 to 599, but not 304) and the refusal can be
    read, the handler passes that status on with the error 'Failed to
    analyze emails with Gemini'.  A refusal with 304, with a status below
    200 or above 599, or one that cannot be read, and a service out of
    reach, are answered 500.  The refused call is the only one. *)
Theorem analyze_service_failure_is_passed_on world req key emails :
  (∀ response,
     asked world req key emails (Some response) →
     Upstream.ok response = false →
     calls (GmailAnalyze.handler world req)
       = [GeminiGenerate key (GmailAnalyze.emailsForAnalysis emails)] ∧
     (Upstream.readable response = true →
      (300 ≤ Upstream.status response ≤ 599 → Upstream.status response ≠ 304 →
       result (GmailAnalyze.handler world req)
       = Normal (Response.mk (Upstream.status response)
                   (ErrorBody (Error "Failed to analyze emails with Gemini")))) ∧
      (Upstream.status response = 304 →
       result (GmailAnalyze.handler world req)
       = Normal (Response.mk 500 (ErrorBody TypeError))) ∧
      (Upstream.status response < 200 ∨ 599 < Upstream.status response →
       result (GmailAnalyze.handler world req)
       = Normal (Response.mk 500 (ErrorBody RangeError)))) ∧
     (Upstream.readable response = false →
      result (GmailAnalyze.handler world req)
      = Normal (Response.mk 500 (ErrorBody NetworkError)))) ∧
  (asked world req key emails None →
   GmailAnalyze.handler world req
   = Run [GeminiGenerate key (GmailAnalyze.emailsForAnalysis emails)]
         (Normal (Response.mk 500 (ErrorBody NetworkError)))).
Proof.
  split.
  - intros response Hasked Hok. rewrite (analyze_asked _ _ _ _ _ Hasked). cbn zeta.
    rewrite Hok. cbn [calls result]. split_and!; [done| |].
    + intros Hreadable.
      destruct (passed_on_readable
                  response (ErrorBody (Error "Failed to analyze emails with Gemini"))
                  Hreadable) as (Hpass & Hnone & Hrange).
      split_and!.
      * intros Hin Hnot. by rewrite Hpass.
      * intros H304. by rewrite Hnone.
      * intros Hout. by rewrite Hrange.
    + intros Hreadable. by rewrite passed_on_unreadable.
  - intros Hasked. by rewrite (analyze_asked _ _ _ _ _ Hasked).
Qed.

Lemma responseText_not_null geminiData :
  geminiData ≠ JNull → ∃ text, GmailAnalyze.responseText geminiData = Normal text.
Proof.
  intros Hnull. unfold GmailAnalyze.responseText. rewrite get_not_null by done.
  by eexists.
Qed.

(** X15.  A successful reply of the classification service without usable
    text.  The body [null] ends in 500 with a [TypeError]; any other body
    is read without an error (the optional chain guards every later step):
    when the text it yields is missing or falsy the answer is 500 'No
    response from Gemini', and when it is truthy but no string the answer
    is 500 'Invalid response format from Gemini'. *)
Theorem analyze_reply_without_usable_text world req key emails response geminiData :
  asked world req key emails (Some response) →
  Upstream.ok response = true →
  Upstream.json response = Some geminiData →
  (geminiData = JNull →
   result (GmailAnalyze.handler world req) = Normal (Response.mk 500 (ErrorBody TypeError))) ∧
  (geminiData ≠ JNull →
   ∃ text,
     GmailAnalyze.responseText geminiData = Normal text ∧
     (truthy text = false →
      result (GmailAnalyze.handler world req)
      = Normal (Response.mk 500 (ErrorBody (Error "No response from Gemini")))) ∧
     (truthy text = true → (∀ reply, text ≠ Some (JString reply)) →
      result (GmailAnalyze.handler world req)
      = Normal (Response.mk 500
                  (ErrorBody (Error "Invalid response format from Gemini"))))).
Proof.
  intros Hasked Hok Hdata. rewrite (analyze_asked _ _ _ _ _ Hasked). cbn zeta.
  rewrite Hok, Hdata. split.
  - by intros ->.
  - intros (text & Htext)%responseText_not_null. exists text. rewrite Htext.
    split_and!; [done|by intros ->|]. intros -> Hstring. cbn [result].
    destruct text as [[| | |reply| |]|]; try done. by destruct (Hstring reply).
Qed.

(** X16.  When the text of the reply parses to JSON that is not an array
    (an object, a string, a number, [null]), the merge has no [find] to
    call and the request ends in 500 with a [TypeError]. *)
Theorem analyze_reply_that_is_no_array world req emails results :
  classified world req emails results →
  (∀ items, results ≠ JArray items) →
  result (GmailAnalyze.handler world req) = Normal (Response.mk 500 (ErrorBody TypeError)).
Proof.
  intros Hclassified Harray. rewrite (handler_classified _ _ _ _ Hclassified).
  destruct Hclassified as (reply & (token & key & response & data & _ & _ & _ & Hemails & _) & _).
  destruct emails as [|email emails]; [done|].
  unfold GmailAnalyze.prioritizedEmails. cbn [Array_map].
  unfold GmailAnalyze.prioritizedEmail at 1.
  destruct results as [| | | |items|]; try done. by destruct (Harray items).
Qed.

End AnalyzePaths.

(** ** More on the merge and on the bracketed span *)

Section MergeMore.
Context `{Runtime}.

Lemma prioritizedEmail_of_find items email :
  Forall (λ r, r ≠ JNull) items →
  GmailAnalyze.prioritizedEmail (JArray items) email
  = let analysis := List.find (matches (Email.id email)) items in
    Normal
      {| PrioritizedEmail.id := Email.id email;
         PrioritizedEmail.subject := Email.subject email;
         PrioritizedEmail.from := Email.from email;
         PrioritizedEmail.date := Email.date email;
         PrioritizedEmail.snippet := Email.snippet email;
         PrioritizedEmail.body := Email.body email;
         PrioritizedEmail.priority :=
           or_else (opt_get analysis "priority") (JString "medium");
         PrioritizedEmail.reasoning :=
           or_else (opt_get analysis "reasoning") (JString "No analysis available");
         PrioritizedEmail.gmailUrl :=
           "https://mail.google.com/mail/u/0/#inbox/" +:+ Email.id email |}.
Proof.
  intros Hitems. unfold GmailAnalyze.prioritizedEmail. cbn [find].
  by rewrite Array_find_matches.
Qed.

Lemma find_filter {A : Type} (p q : A → bool) xs :
  (∀ x, x ∈ xs → p x = true → q x = true) →
  List.find p (filter (λ x, q x = true) xs) = List.find p xs.
Proof.
  induction xs as [|x xs IH]; intros Hpq; [done|].
  rewrite filter_cons. cbn [List.find].
  destruct (decide (q x = true)) as [Hq|Hq].
  - cbn [List.find]. destruct (p x); [done|].
    apply IH. intros y Hy. apply Hpq. by right.
  - destruct (p x) eqn:Hp.
    + destruct Hq. apply Hpq; [by left|done].
    + apply IH. intros y Hy. apply Hpq. by right.
Qed.

Lemma Array_map_ext {A B : Type} (f g : A → Completion B) xs :
  Forall (λ x, f x = g x) xs → Array_map f xs = Array_map g xs.
Proof. induction 1 as [|x xs Hx _ IH]; [done|]. cbn [Array_map]. by rewrite Hx, IH. Qed.

(** X17.  Results that match none of the emails of the batch play no part
    in the merge: dropping them from the parsed reply changes nothing,
    provided no entry of the reply is [null]. *)
Theorem unmatched_results_are_ignored items emails :
  Forall (λ r, r ≠ JNull) items →
  GmailAnalyze.prioritizedEmails (JArray items) emails
  = GmailAnalyze.prioritizedEmails
      (JArray (filter (λ r, relevant emails r = true) items)) emails.
Proof.
  intros Hitems. unfold GmailAnalyze.prioritizedEmails.
  apply Array_map_ext, Forall_forall. intros email Hemail.
  assert (Forall (λ r, r ≠ JNull) (filter (λ r, relevant emails r = true) items))
    as Hkept.
  { apply Forall_forall. intros r [_ Hr]%list_elem_of_filter.
    by apply (proj1 (Forall_forall _ _) Hitems). }
  rewrite (prioritizedEmail_of_find _ _ Hitems), (prioritizedEmail_of_find _ _ Hkept).
  cbn zeta. rewrite find_filter; [done|].
  intros r _ Hr. unfold relevant. apply existsb_exists.
  exists email. split; [by apply list_elem_of_In|done].
Qed.

(** X18.  The reasoning of a merged record is that of the first result
    matching the email when that is truthy, and 'No analysis available'
    otherwise; priority and reasoning fall back each on its own, so a
    result with a priority and no reasoning keeps its priority.  Results
    after the first match are not read. *)
Theorem reasoning_of_the_first_match email before analysis after :
  Forall (λ r, r ≠ JNull ∧ matches (Email.id email) r = false) before →
  matches (Email.id email) analysis = true →
  ∃ p,
    GmailAnalyze.prioritizedEmail (JArray (before ++ analysis :: after)) email = Normal p ∧
    PrioritizedEmail.reasoning p
      = or_else (opt_get (Some analysis) "reasoning") (JString "No analysis available") ∧
    PrioritizedEmail.priority p
      = or_else (opt_get (Some analysis) "priority") (JString "medium").
Proof.
  intros Hbefore Hmatch. unfold GmailAnalyze.prioritizedEmail. cbn [find].
  assert (Array_find (λ result, id ← get (Some result) "id";
                                Normal (strict_eq_string id (Email.id email)))
                     (before ++ analysis :: after) = Normal (Some analysis)) as ->.
  { induction Hbefore as [|r before [Hnull Hr] _ IH]; cbn [app Array_find].
    - assert (analysis ≠ JNull) as Hnull by (by intros ->).
      rewrite get_not_null by done. cbn [mbind Completion_bind].
      unfold matches in Hmatch. by rewrite Hmatch.
    - rewrite get_not_null by done. cbn [mbind Completion_bind].
      unfold matches in Hr. by rewrite Hr. }
  cbn [mbind Completion_bind]. by eexists.
Qed.

Lemma prioritizedEmail_link results email p :
  GmailAnalyze.prioritizedEmail results email = Normal p →
  PrioritizedEmail.id p = Email.id email ∧
  PrioritizedEmail.gmailUrl p
    = "https://mail.google.com/mail/u/0/#inbox/" +:+ PrioritizedEmail.id p.
Proof.
  unfold GmailAnalyze.prioritizedEmail.
  destruct (find _ _); cbn [mbind Completion_bind]; [|done]. by intros [= <-].
Qed.

(** X19.  The link of every merged record is the inbox address followed by
    the id of its email, so that two records of an answer with the same
    link have the same id. *)
Theorem links_identify_emails results emails merged :
  GmailAnalyze.prioritizedEmails results emails = Normal merged →
  Forall2 (λ email p,
             PrioritizedEmail.gmailUrl p
               = "https://mail.google.com/mail/u/0/#inbox/" +:+ Email.id email)
          emails merged ∧
  ∀ p q, p ∈ merged → q ∈ merged →
         PrioritizedEmail.gmailUrl p = PrioritizedEmail.gmailUrl q →
         PrioritizedEmail.id p = PrioritizedEmail.id q.
Proof.
  intros Hmerged%Array_map_Forall2. split.
  - eapply Forall2_impl; [done|]. intros email p [<- ->]%prioritizedEmail_link. done.
  - assert (Forall (λ p, PrioritizedEmail.gmailUrl p
                         = "https://mail.google.com/mail/u/0/#inbox/"
                             +:+ PrioritizedEmail.id p) merged) as Hlinks.
    { induction Hmerged as [|email p emails merged Hp _ IH]; constructor; [|done].
      by apply prioritizedEmail_link in Hp as [_ ?]. }
    intros p q Hp Hq. rewrite Forall_forall in Hlinks.
    rewrite (Hlinks p Hp), (Hlinks q Hq). apply String.app_inj.
Qed.

(** X20.  A reply that holds an opening bracket before which there is no
    other, and a closing bracket after which there is no other, is cut to
    exactly what lies between the two, brackets included: the text before
    and after never reaches [JSON.parse]. *)
Theorem reply_is_cut_to_its_outermost_brackets reply pre mid post :
  chars reply = pre ++ ["["%char] ++ mid ++ ["]"%char] ++ post →
  "["%char ∉ pre → "]"%char ∉ post →
  bracket_match reply = Some (text (["["%char] ++ mid ++ ["]"%char])) ∧
  GmailAnalyze.analysisResults (Some (JString reply))
  = match JSON_parse (text (["["%char] ++ mid ++ ["]"%char])) with
    | Some results => Normal results
    | None => Throw (Error "Invalid response format from Gemini")
    end.
Proof.
  intros Hreply Hpre Hpost.
  assert (bracket_match reply = Some (text (["["%char] ++ mid ++ ["]"%char]))) as Hmatch.
  { unfold bracket_match.
    assert (from_first_open (chars reply) = Some (mid ++ ["]"%char] ++ post)) as ->.
    { apply from_first_open_Some. by exists pre. }
    assert (upto_last_close (mid ++ ["]"%char] ++ post) = Some (mid ++ ["]"%char])) as ->.
    { apply upto_last_close_Some. exists mid, post. by rewrite <- app_assoc. }
    done. }
  split; [done|]. by rewrite analysisResults_string, Hmatch.
Qed.

End MergeMore.

(** ** The callers *)

Section Callers.
Import Client.

Ltac run_ui :=
  cbn [run mbind UI_bind mret UI_ret set emit toast throw lift invoking catching finally
       EmailList.setEmails EmailList.setLoading
       PrioritizedEmails.setPrioritizedEmails PrioritizedEmails.setLoading
       PrioritizedEmails.setAnalyzed app].


Lemma fetchEmails_invocations invoke accessToken onEmailsChange s :
  invocations (run (EmailList.fetchEmails invoke accessToken onEmailsChange) s).1.2
  = if absent accessToken then []
    else [gmail_fetch {| GmailFetch.accessToken := accessToken;
                         GmailFetch.maxResults := Some 20 |}].
Proof.
  unfold EmailList.fetchEmails. destruct (absent accessToken); [done|].
  run_ui. destruct (invoke _) as [data [message|]|e]; run_ui; [done| |done].
  destruct (get data "messages") as [messages|e]; run_ui; [|done].
  by destruct onEmailsChange, (ToString _) as [[]|e].
Qed.

Lemma slice0_100 {A : Type} (xs : list A) : slice0 100 xs = take 100 xs.
Proof. done. Qed.

Lemma analyzeEmails_invocations invoke accessToken emails s :
  invocations (run (PrioritizedEmails.analyzeEmails invoke accessToken emails) s).1.2
  = if absent accessToken || Nat.eqb (length emails) 0 then []
    else [gmail_analyze {| GmailAnalyze.accessToken := accessToken;
                           GmailAnalyze.emails := Some (take 100 emails) |}].
Proof.
  unfold PrioritizedEmails.analyzeEmails.
  destruct (absent accessToken || Nat.eqb (length emails) 0); [done|].
  rewrite slice0_100. run_ui.
  destruct (invoke _) as [data [message|]|e]; run_ui; [done| |done].
  destruct (get data "prioritizedEmails") as [prioritized|e]; run_ui; [|done].
  by destruct (ToString _) as [[]|e].
Qed.

Lemma emailsForAnalysis_ids emails :
  AnalysisEmail.id <$> GmailAnalyze.emailsForAnalysis emails = Email.id <$> take 100 emails.
Proof.
  unfold GmailAnalyze.emailsForAnalysis. rewrite slice0_100.
  induction (take 100 emails) as [|email rest IH]; [done|].
  cbn [map]. csimpl. by rewrite IH.
Qed.

(** X21.  [fetchEmails] without an access token (missing or empty) shows
    one destructive toast and does nothing else: the state is untouched and
    no function is invoked.  With a token it invokes [gmail-fetch] exactly
    once, with that token and [maxResults] 20. *)
Theorem fetchEmails_asks_once_with_the_token invoke accessToken onEmailsChange s :
  (absent accessToken = true →
   ∃ t, run (EmailList.fetchEmails invoke accessToken onEmailsChange) s
        = (s, [Toasts t], Normal tt) ∧ destructive t = true) ∧
  (absent accessToken = false →
   invocations (run (EmailList.fetchEmails invoke accessToken onEmailsChange) s).1.2
   = [gmail_fetch {| GmailFetch.accessToken := accessToken;
                     GmailFetch.maxResults := Some 20 |}]).
Proof.
  split; intros Htoken.
  - unfold EmailList.fetchEmails. rewrite Htoken. by eexists.
  - by rewrite fetchEmails_invocations, Htoken.
Qed.


(** X23.  [analyzeEmails] without an access token or without emails shows
    one destructive toast and does nothing else.  Otherwise it invokes
    [gmail-analyze] exactly once, with the token and the first 100 emails:
    a batch of between 1 and 100. *)
Theorem analyzeEmails_asks_once_for_at_most_100 invoke accessToken emails s :
  (absent accessToken = true ∨ emails = [] →
   ∃ t, run (PrioritizedEmails.analyzeEmails invoke accessToken emails) s
        = (s, [Toasts t], Normal tt) ∧ destructive t = true) ∧
  (absent accessToken = false → emails ≠ [] →
   invocations (run (PrioritizedEmails.analyzeEmails invoke accessToken emails) s).1.2
   = [gmail_analyze {| GmailAnalyze.accessToken := accessToken;
                       GmailAnalyze.emails := Some (take 100 emails) |}] ∧
   (0 < length (take 100 emails) ≤ 100)%nat).
Proof.
  split.
  - intros Hguard. unfold PrioritizedEmails.analyzeEmails.
    assert (absent accessToken || Nat.eqb (length emails) 0 = true) as ->.
    { destruct Hguard as [-> | ->]; [done|apply orb_true_r]. }
    by eexists.
  - intros Htoken Hemails. rewrite analyzeEmails_invocations, Htoken.
    destruct emails as [|email emails]; [done|]. split; [done|].
    rewrite length_take. cbn [length]. lia.
Qed.

(** X24.  [analyzeEmails] never throws, shows exactly one toast, and leaves
    [loading] false whenever it got past the guard.  Either it failed
    before anything changed (the toast is destructive, the prioritized list
    and [analyzed] are what they were), or the call settled without an
    error and the data had [prioritizedEmails] to read: the list becomes
    these (the empty list when they are missing) and [analyzed] is set.
    The toast that follows is the success toast when the count can be
    written into its text, as it can for every array, and the destructive
    one otherwise: the state has then changed all the same. *)
Theorem analyzeEmails_settles invoke accessToken emails s :
  ∃ s' effects t,
    run (PrioritizedEmails.analyzeEmails invoke accessToken emails) s
      = (s', effects, Normal tt) ∧
    toasts effects = [t] ∧
    PrioritizedEmails.loading s'
      = (if absent accessToken || Nat.eqb (length emails) 0
         then PrioritizedEmails.loading s else false) ∧
    ((destructive t = true ∧
      PrioritizedEmails.prioritizedEmails s' = PrioritizedEmails.prioritizedEmails s ∧
      PrioritizedEmails.analyzed s' = PrioritizedEmails.analyzed s) ∨
     (∃ data prioritized,
        invoke (gmail_analyze {| GmailAnalyze.accessToken := accessToken;
                                 GmailAnalyze.emails := Some (take 100 emails) |})
          = Settled data None ∧
        get data "prioritizedEmails" = Normal prioritized ∧
        PrioritizedEmails.prioritizedEmails s' = or_else prioritized (JArray []) ∧
        PrioritizedEmails.analyzed s' = true ∧
        destructive t
          = match ToString (Some (or_else (opt_length prioritized) (JNumber 0))) with
            | Normal _ => false
            | Throw _ => true
            end ∧
        ∀ items, prioritized = Some (JArray items) → destructive t = false)).
Proof.
  unfold PrioritizedEmails.analyzeEmails.
  destruct (absent accessToken || Nat.eqb (length emails) 0).
  { destruct s. do 3 eexists. split_and!; try done. by left. }
  rewrite slice0_100. run_ui.
  destruct (invoke _) as [data [message|]|e] eqn:Hinvoke; run_ui.
  - do 3 eexists. split_and!; try done. by left.
  - destruct (get data "prioritizedEmails") as [prioritized|e] eqn:Hprioritized; run_ui.
    + destruct (ToString (Some (or_else (opt_length prioritized) (JNumber 0))))
        as [[]|e] eqn:Hcount; run_ui.
      * do 3 eexists. split_and!; try done. right.
        exists data, prioritized. by rewrite Hcount.
      * do 3 eexists. split_and!; try done. right.
        exists data, prioritized. rewrite Hcount. split_and!; try done.
        intros items ->. cbn in Hcount. by destruct (negb _) in Hcount.
    + do 3 eexists. split_and!; try done. by left.
  - do 3 eexists. split_and!; try done. by left.
Qed.

(** X25.  What [analyzeEmails] sends always passes the checks of
    [gmail-analyze]: served with a configured key, the request reaches the
    classification service, and the prompt has one entry for every email
    sent, in order; the cap of the prompt cuts nothing off, and the prompt
    is the one the handler would build from the whole list. *)
Theorem analyzeEmails_request_reaches_the_service
    `{Runtime} invoke accessToken emails s call world req key :
  call ∈ invocations
           (run (PrioritizedEmails.analyzeEmails invoke accessToken emails) s).1.2 →
  GmailAnalyze.GEMINI_API_KEY world = Some key → key ≠ "" →
  Request.method req ≠ "OPTIONS" →
  ∃ sent,
    call = gmail_analyze {| GmailAnalyze.accessToken := accessToken;
                            GmailAnalyze.emails := Some sent |} ∧
    sent = take 100 emails ∧
    (Request.json req = Some {| GmailAnalyze.accessToken := accessToken;
                                GmailAnalyze.emails := Some sent |} →
     calls (GmailAnalyze.handler world req)
       = [GeminiGenerate key (GmailAnalyze.emailsForAnalysis sent)] ∧
     length (GmailAnalyze.emailsForAnalysis sent) = length sent ∧
     AnalysisEmail.id <$> GmailAnalyze.emailsForAnalysis sent = Email.id <$> sent ∧
     GmailAnalyze.emailsForAnalysis sent = GmailAnalyze.emailsForAnalysis emails).
Proof.
  intros Hcall Hkey Hkey' Hmethod. rewrite analyzeEmails_invocations in Hcall.
  destruct (absent accessToken) eqn:Htoken; [by apply elem_of_nil in Hcall|].
  destruct emails as [|email emails]; [by apply elem_of_nil in Hcall|].
  apply list_elem_of_singleton in Hcall as ->.
  exists (take 100 (email :: emails)). split_and!; [done|done|].
  intros Hjson. destruct accessToken as [token|]; [|done].
  cbn in Htoken. apply String.eqb_neq in Htoken.
  assert (asked world req key (take 100 (email :: emails))
                (GmailAnalyze.generateContent world key
                   (GmailAnalyze.emailsForAnalysis (take 100 (email :: emails)))))
    as Hasked.
  { exists token. split_and!; done. }
  split_and!.
  - by apply (analyze_asked_calls _ _ _ _ _ Hasked).
  - rewrite emailsForAnalysis_length, length_take. lia.
  - rewrite emailsForAnalysis_ids, take_take. by rewrite Nat.min_id.
  - unfold GmailAnalyze.emailsForAnalysis. rewrite !slice0_100, take_take.
    by rewrite Nat.min_id.
Qed.


(** X26.  What [fetchEmails] sends always passes the check of
    [gmail-fetch]: the handler lists with the caller's token and a cap of
    20, makes at most 21 calls to the mailbox service, and returns at most
    20 records. *)
Theorem fetchEmails_request_is_bounded
    `{Runtime} invoke accessToken onEmailsChange s call world req :
  call ∈ invocations
           (run (EmailList.fetchEmails invoke accessToken onEmailsChange) s).1.2 →
  Request.method req ≠ "OPTIONS" →
  ∃ token,
    accessToken = Some token ∧ token ≠ "" ∧
    call = gmail_fetch {| GmailFetch.accessToken := Some token;
                          GmailFetch.maxResults := Some 20 |} ∧
    (Request.json req = Some {| GmailFetch.accessToken := Some token;
                                GmailFetch.maxResults := Some 20 |} →
     head (calls (GmailFetch.handler world req)) = Some (GmailList token 20) ∧
     (length (calls (GmailFetch.handler world req)) ≤ 21)%nat ∧
     ∀ status records,
       result (GmailFetch.handler world req)
         = Normal (Response.mk status (Messages records)) →
       (length records ≤ 20)%nat).
Proof.
  intros Hcall Hmethod. rewrite fetchEmails_invocations in Hcall.
  destruct (absent accessToken) eqn:Htoken; [by apply elem_of_nil in Hcall|].
  apply list_elem_of_singleton in Hcall as ->.
  destruct accessToken as [token|]; [|done].
  cbn in Htoken. apply String.eqb_neq in Htoken.
  exists token. split_and!; [done..|]. intros Hjson.
  destruct (fetch_bounds world req token (Some 20) Hmethod Hjson Htoken)
    as (Hhead & Hcalls & Hrecords); [done|].
  cbn [from_option id] in *. split_and!; [done|lia|].
  intros status records Hresult. specialize (Hrecords _ _ Hresult). lia.
Qed.

End Callers.

(** ** The two functions and their callers on concrete inputs *)

Section MoreRuns.
Import Client.

(** X3, witness: a request without a token, whatever cap it asks for. *)
Lemma token_less_fetch_is_400 :
  GmailFetch.handler (mailbox ["m1"] two_of_three) (fetch_request None (Some 5))
  = Run [] (Normal (Response.mk 400 (ErrorBody (Error "Access token is required")))).
Proof.
  apply (fetch_requires_a_token
           _ _ {| GmailFetch.accessToken := None; GmailFetch.maxResults := Some 5 |});
    [done|done|by left].
Defined.

(** X4, witness: the mailbox service refuses the listing with 401, which is
    passed on; and with 304, which no response with a body can carry. *)
Lemma expired_token_is_passed_on :
  calls (GmailFetch.handler (listing_only (Some (Upstream.mk 401 None)))
                            (fetch_request (Some "token") None))
  = [GmailList "token" 10] ∧
  result (GmailFetch.handler (listing_only (Some (Upstream.mk 401 None)))
                             (fetch_request (Some "token") None))
  = Normal (Response.mk 401 (ErrorBody (Error "Failed to fetch emails from Gmail"))) ∧
  result (GmailFetch.handler (listing_only (Some (Upstream.mk 304 None)))
                             (fetch_request (Some "token") None))
  = Normal (Response.mk 500 (ErrorBody TypeError)).
Proof.
  destruct (fetch_listing_failure_is_passed_on
              (listing_only (Some (Upstream.mk 401 None)))
              (fetch_request (Some "token") None) "token" None)
    as [Hrefused _]; [done..|].
  destruct (Hrefused (Upstream.mk 401 None) eq_refl eq_refl) as (Hcalls & Hreadable & _).
  destruct (Hreadable eq_refl) as (Hpass & _).
  destruct (fetch_listing_failure_is_passed_on
              (listing_only (Some (Upstream.mk 304 None)))
              (fetch_request (Some "token") None) "token" None)
    as [Hrefused' _]; [done..|].
  destruct (Hrefused' (Upstream.mk 304 None) eq_refl eq_refl) as (_ & Hreadable' & _).
  destruct (Hreadable' eq_refl) as (_ & Hnone & _).
  split_and!; [exact Hcalls|apply Hpass; [by vm_compute|done]|by apply Hnone].
Defined.

(** X5, witness: the listing of an empty mailbox has no [messages] member. *)
Lemma empty_mailbox_lists_nothing :
  GmailFetch.handler
    (listing_only
       (Some (Upstream.mk 200 (Some (JObject [("resultSizeEstimate", JNumber 0)])))))
    (fetch_request (Some "token") None)
  = Run [GmailList "token" 10] (Normal (Response.mk 200 (Messages []))).
Proof.
  apply (fetch_empty_listing
           _ _ "token" None
           (Upstream.mk 200 (Some (JObject [("resultSizeEstimate", JNumber 0)])))
           (JObject [("resultSizeEstimate", JNumber 0)]) None);
    [done..|by left].
Defined.

(** X6, witness: of three listed messages a cap of two looks the first two up. *)
Lemma two_lookups_for_a_cap_of_two :
  calls (GmailFetch.handler (mailbox ["m1"; "m2"; "m3"] two_of_three)
                            (fetch_request (Some "token") (Some 2)))
  = [GmailList "token" 2;
     GmailGet "token" (Some (JString "m1"));
     GmailGet "token" (Some (JString "m2"))].
Proof.
  destruct (fetch_lookups_follow_the_listing
              _ _ "token" _
              (example_listed ["m1"; "m2"; "m3"] two_of_three (Some 2)))
    as (cap & Hjson & Hcalls & _).
  injection Hjson as <-. exact Hcalls.
Defined.

(** X7, witness: the lookup of [m2] is refused; the records are those of [m1]
    and [m3]. *)
Lemma records_carry_m1_and_m3 :
  ∃ records,
    result (GmailFetch.handler (mailbox ["m1"; "m2"; "m3"] two_of_three)
                               (fetch_request (Some "token") (Some 3)))
    = Normal (Response.mk 200 (Messages records)) ∧
    NormalizedEmail.id <$> records = [Some (JString "m1"); Some (JString "m3")].
Proof.
  assert (∃ records,
            result (GmailFetch.handler (mailbox ["m1"; "m2"; "m3"] two_of_three)
                                       (fetch_request (Some "token") (Some 3)))
            = Normal (Response.mk 200 (Messages records))) as (records & Hresult).
  { eexists. by vm_compute. }
  exists records. split; [exact Hresult|].
  destruct (fetch_records_keep_listing_ids
              _ _ "token" _ 200 records
              (example_listed ["m1"; "m2"; "m3"] two_of_three (Some 3)) Hresult)
    as (Hids & _).
  rewrite Hids. by vm_compute.
Defined.

(** X8, witness: a body of 600 characters comes back with 503. *)
Lemma long_body_is_cut_to_503 :
  ∃ records,
    result (GmailFetch.handler (mailbox ["m1"] (λ _, found "long" long_payload))
                               (fetch_request (Some "token") None))
    = Normal (Response.mk 200 (Messages records)) ∧
    Forall (λ record, (String.length (NormalizedEmail.body record) ≤ 503)%nat) records ∧
    String.length <$> (NormalizedEmail.body <$> records) = [503%nat].
Proof.
  assert (∃ records,
            result (GmailFetch.handler (mailbox ["m1"] (λ _, found "long" long_payload))
                                       (fetch_request (Some "token") None))
            = Normal (Response.mk 200 (Messages records))) as (records & Hresult).
  { eexists. by vm_compute. }
  exists records. split; [exact Hresult|].
  split; [by apply (fetch_bodies_are_capped _ _ 200 records Hresult)|].
  vm_compute in Hresult. injection Hresult as <-. by vm_compute.
Defined.

(** X11, witness: a lookup reply that holds a snippet and nothing else. *)
Lemma reply_without_payload_gives_defaults :
  GmailFetch.normalize (Some (JString "m1")) (JObject [("snippet", JString "hi")])
  = Normal {| NormalizedEmail.id := Some (JString "m1");
              NormalizedEmail.subject := JString "No Subject";
              NormalizedEmail.from := JString "Unknown Sender";
              NormalizedEmail.date := JString "";
              NormalizedEmail.snippet := JString "hi";
              NormalizedEmail.body := "" |}.
Proof.
  by apply (normalize_without_payload
              (Some (JString "m1")) (JObject [("snippet", JString "hi")]) None).
Defined.

Lemma example_asked key response emails :
  key ≠ "" → emails ≠ [] →
  asked (service (Some key) response) (analyze_request (Some "token") (Some emails))
        key emails response.
Proof. intros Hkey Hemails. exists "token". by split_and!. Qed.

(** X14, witness: the classification service answers 429, which is passed
    on; an answer 304 is not. *)
Lemma rate_limit_is_passed_on :
  calls (GmailAnalyze.handler (service (Some "key") (Some (Upstream.mk 429 None)))
                              (analyze_request (Some "token") (Some [email "a" None])))
  = [GeminiGenerate "key" (GmailAnalyze.emailsForAnalysis [email "a" None])] ∧
  result (GmailAnalyze.handler (service (Some "key") (Some (Upstream.mk 429 None)))
                               (analyze_request (Some "token") (Some [email "a" None])))
  = Normal (Response.mk 429 (ErrorBody (Error "Failed to analyze emails with Gemini"))) ∧
  result (GmailAnalyze.handler (service (Some "key") (Some (Upstream.mk 304 None)))
                               (analyze_request (Some "token") (Some [email "a" None])))
  = Normal (Response.mk 500 (ErrorBody TypeError)).
Proof.
  destruct (analyze_service_failure_is_passed_on
              (service (Some "key") (Some (Upstream.mk 429 None)))
              (analyze_request (Some "token") (Some [email "a" None]))
              "key" [email "a" None]) as [Hrefused _].
  destruct (Hrefused (Upstream.mk 429 None)) as (Hcalls & Hreadable & _);
    [by apply example_asked|done|].
  destruct (Hreadable eq_refl) as (Hpass & _).
  destruct (analyze_service_failure_is_passed_on
              (service (Some "key") (Some (Upstream.mk 304 None)))
              (analyze_request (Some "token") (Some [email "a" None]))
              "key" [email "a" None]) as [Hrefused' _].
  destruct (Hrefused' (Upstream.mk 304 None)) as (_ & Hreadable' & _);
    [by apply example_asked|done|].
  destruct (Hreadable' eq_refl) as (_ & Hnone & _).
  split_and!; [exact Hcalls|apply Hpass; [by vm_compute|done]|by apply Hnone].
Defined.

(** X15, witness: a reply with an empty list of candidates. *)
Lemma reply_without_candidates_is_500 :
  result (GmailAnalyze.handler
            (service (Some "key")
                     (Some (Upstream.mk 200 (Some (JObject [("candidates", JArray [])])))))
            (analyze_request (Some "token") (Some [email "a" None])))
  = Normal (Response.mk 500 (ErrorBody (Error "No response from Gemini"))).
Proof.
  destruct (analyze_reply_without_usable_text
              (service (Some "key")
                       (Some (Upstream.mk 200 (Some (JObject [("candidates", JArray [])])))))
              (analyze_request (Some "token") (Some [email "a" None]))
              "key" [email "a" None]
              (Upstream.mk 200 (Some (JObject [("candidates", JArray [])])))
              (JObject [("candidates", JArray [])]))
    as [_ Hread]; [by apply example_asked|done|done|].
  destruct Hread as (text & Htext & Hfalsy & _); [done|].
  apply Hfalsy. vm_compute in Htext. by injection Htext as <-.
Defined.

(** X16, witness: the reply is the text of an empty object. *)
Lemma object_reply_is_500 :
  result (GmailAnalyze.handler (analyze_world (Some "key") "{}")
                               (analyze_request (Some "token") (Some [email "a" None])))
  = Normal (Response.mk 500 (ErrorBody TypeError)).
Proof.
  apply (analyze_reply_that_is_no_array _ _ [email "a" None] (JObject [])); [|done].
  exists "{}". split_and!; [by apply example_replied|done|by vm_compute].
Defined.

(** X17, witness: a result for [z] beside the one for [a]. *)
Lemma stray_result_changes_nothing :
  GmailAnalyze.prioritizedEmails
    (JArray [JObject [("id", JString "z"); ("priority", JString "high")];
             JObject [("id", JString "a"); ("priority", JString "low")]])
    [email "a" None]
  = GmailAnalyze.prioritizedEmails
      (JArray [JObject [("id", JString "a"); ("priority", JString "low")]])
      [email "a" None].
Proof.
  apply (unmatched_results_are_ignored
           [JObject [("id", JString "z"); ("priority", JString "high")];
            JObject [("id", JString "a"); ("priority", JString "low")]]
           [email "a" None]).
  by repeat constructor.
Defined.

(** X18, witness: a result with a priority and no reasoning. *)
Lemma priority_without_reasoning :
  ∃ p,
    GmailAnalyze.prioritizedEmail
      (JArray [JObject [("id", JString "a"); ("priority", JString "high")]])
      (email "a" None) = Normal p ∧
    PrioritizedEmail.priority p = JString "high" ∧
    PrioritizedEmail.reasoning p = JString "No analysis available".
Proof.
  destruct (reasoning_of_the_first_match
              (email "a" None) []
              (JObject [("id", JString "a"); ("priority", JString "high")]) [])
    as (p & Hp & Hreasoning & Hpriority); [constructor|done|].
  exists p. by split_and!.
Defined.

(** X19, witness: two emails, no result. *)
Lemma links_of_two_emails :
  ∃ merged,
    GmailAnalyze.prioritizedEmails (JArray []) [email "a" None; email "b" None]
      = Normal merged ∧
    PrioritizedEmail.gmailUrl <$> merged
      = ["https://mail.google.com/mail/u/0/#inbox/a";
         "https://mail.google.com/mail/u/0/#inbox/b"] ∧
    ∀ p q, p ∈ merged → q ∈ merged →
           PrioritizedEmail.gmailUrl p = PrioritizedEmail.gmailUrl q →
           PrioritizedEmail.id p = PrioritizedEmail.id q.
Proof.
  eexists. split; [reflexivity|]. split; [reflexivity|].
  by apply (links_identify_emails (JArray []) [email "a" None; email "b" None]).
Defined.

(** X20, witness: nested brackets between two words. *)
Lemma prose_around_the_array_is_dropped :
  bracket_match "ok [[1],[2]] bye" = Some "[[1],[2]]" ∧
  GmailAnalyze.analysisResults (Some (JString "ok [[1],[2]] bye"))
  = Normal (JArray [JArray [JNumber 1]; JArray [JNumber 2]]).
Proof.
  destruct (reply_is_cut_to_its_outermost_brackets
              "ok [[1],[2]] bye" (chars "ok ") (chars "[1],[2]") (chars " bye"))
    as [Hmatch Hparse]; [done| | |].
  - intros Hin. repeat (apply elem_of_cons in Hin as [Hin|Hin]; [discriminate Hin|]).
    by apply elem_of_nil in Hin.
  - intros Hin. repeat (apply elem_of_cons in Hin as [Hin|Hin]; [discriminate Hin|]).
    by apply elem_of_nil in Hin.
  - split; [exact Hmatch|]. rewrite Hparse. by vm_compute.
Defined.

(** X25, witness: of 101 emails the first hundred are sent, and the prompt has
    a hundred entries. *)
Lemma a_hundred_of_101_are_classified :
  calls (GmailAnalyze.handler (analyze_world (Some "key") example_reply)
                              (analyze_request (Some "token") (Some (take 100 long_batch))))
  = [GeminiGenerate "key" (GmailAnalyze.emailsForAnalysis (take 100 long_batch))] ∧
  length (GmailAnalyze.emailsForAnalysis (take 100 long_batch)) = 100%nat.
Proof.
  destruct (analyzeEmails_request_reaches_the_service
              (answering (Rejected NetworkError)) (Some "token") long_batch
              PrioritizedEmails.initial
              (gmail_analyze {| GmailAnalyze.accessToken := Some "token";
                                GmailAnalyze.emails := Some (take 100 long_batch) |})
              (analyze_world (Some "key") example_reply)
              (analyze_request (Some "token") (Some (take 100 long_batch)))
              "key")
    as (sent & Hcall & Hsent & Hserved); [|done..|].
  - vm_compute. constructor.
  - subst sent. destruct (Hserved eq_refl) as (Hcalls & Hlength & _).
    split; [exact Hcalls|]. rewrite Hlength. by vm_compute.
Defined.

(** X26, witness: a mailbox of three messages. *)
Lemma three_listed_within_the_bound :
  Z.of_nat (length (calls (GmailFetch.handler (mailbox ["m1"; "m2"; "m3"] two_of_three)
                                              (fetch_request (Some "token") (Some 20)))))
  ≤ 21.
Proof.
  destruct (fetchEmails_request_is_bounded
              (answering (Rejected NetworkError)) (Some "token") false
              EmailList.initial
              (gmail_fetch {| GmailFetch.accessToken := Some "token";
                              GmailFetch.maxResults := Some 20 |})
              (mailbox ["m1"; "m2"; "m3"] two_of_three)
              (fetch_request (Some "token") (Some 20)))
    as (token & Htoken & _ & _ & Hserved); [|done|].
  - vm_compute. constructor.
  - injection Htoken as <-. destruct (Hserved eq_refl) as (_ & Hcalls & _). lia.
Defined.

(** An [id] that cannot be put into the address of the lookup: the message
    is not looked up, and the request ends in an error. *)
Lemma unconvertible_id_is_not_looked_up :
  GmailFetch.handler
    (listing_only
       (Some (Upstream.mk 200
                (Some (JObject
                         [("messages",
                           JArray [JObject [("id", JObject [("toString", JNumber 1)])]])])))))
    (fetch_request (Some "token") None)
  = Run [GmailList "token" 10] (Normal (Response.mk 500 (ErrorBody TypeError))).
Proof. by vm_compute. Qed.

(** A list whose length cannot be written into the text of the toast: the
    list has been replaced and the parent notified when the conversion
    throws, and the toast shown is the destructive one. *)
Lemma unwritable_length_after_the_list_changed :
  run (EmailList.fetchEmails
         (answering
            (Settled
               (Some (JObject
                        [("messages",
                          JObject [("length", JObject [("toString", JNumber 1)])])]))
               None))
         (Some "token") true)
      EmailList.initial
  = ({| EmailList.emails := JObject [("length", JObject [("toString", JNumber 1)])];
        EmailList.loading := false;
        EmailList.selectedEmail := None |},
     [Invokes (gmail_fetch {| GmailFetch.accessToken := Some "token";
                              GmailFetch.maxResults := Some 20 |});
      EmailsChange (JObject [("length", JObject [("toString", JNumber 1)])]);
      Toasts {| title := "Error"; description := MessageOf TypeError;
                destructive := true |}],
     Normal tt).
Proof. by vm_compute. Qed.

Lemma unwritable_count_after_the_analysis_was_stored :
  run (PrioritizedEmails.analyzeEmails
         (answering
            (Settled
               (Some (JObject
                        [("prioritizedEmails",
                          JObject [("length", JObject [("toString", JNumber 1)])])]))
               None))
         (Some "token") [email "a" None])
      PrioritizedEmails.initial
  = ({| PrioritizedEmails.prioritizedEmails :=
          JObject [("length", JObject [("toString", JNumber 1)])];
        PrioritizedEmails.loading := false;
        PrioritizedEmails.analyzed := true |},
     [Invokes (gmail_analyze {| GmailAnalyze.accessToken := Some "token";
                                GmailAnalyze.emails := Some [email "a" None] |});
      Toasts {| title := "Analysis Failed"; description := MessageOf TypeError;
                destructive := true |}],
     Normal tt).
Proof. by vm_compute. Qed.

End MoreRuns.
